(** * Camera models: the parameter set and the shared calibration algorithms

    A shallow embedding of [src/mynteye/api/camera_models/camera.cc]:
    the value type [Camera::Parameters] and the five algorithms that the
    abstract class [Camera] implements once for every lens model
    ([estimateExtrinsics], [reprojectionDist], the two [reprojectionError]
    overloads and [projectPoints]). *)

From Stdlib Require Import List Arith ZArith Lia Bool.
From Stdlib Require String.
From Stdlib Require Import Reals Lra.
From Stdlib Require PrimFloat FloatOps SpecFloat Uint63 FloatAxioms.
Import ListNotations.

Set Implicit Arguments.

(* ================================================================== *)
(** * Part I.  [Camera::Parameters] *)
(* ================================================================== *)

Module Params.

(** Modelled from the spec: the enumeration [Camera::ModelType] is declared
    in [camera.h], which is not part of the sources at hand; the three
    tags are the ones the spec lists and the constructors switch on. *)
Inductive ModelType : Type :=
| KANNALA_BRANDT
| MEI
| PINHOLE.

(** The five data members of [Camera::Parameters]; C++ [int] fields are
    kept as integers, no arithmetic is ever done on them here. *)
Record Parameters : Type := mkParameters {
  m_modelType   : ModelType;
  m_nIntrinsics : Z;
  m_cameraName  : String.string;
  m_imageWidth  : Z;
  m_imageHeight : Z
}.

(** The [switch] shared by both constructors (lines 24-34 and 43-53). *)
Definition switch_nIntrinsics (modelType : ModelType) : Z :=
  match modelType with
  | KANNALA_BRANDT => 8
  | PINHOLE => 8
  | MEI => 9
  end.

(** [Parameters(ModelType)]: empty name, zero image size. *)
Definition Parameters1 (modelType : ModelType) : Parameters :=
  {| m_modelType := modelType;
     m_nIntrinsics := switch_nIntrinsics modelType;
     m_cameraName := String.EmptyString;
     m_imageWidth := 0;
     m_imageHeight := 0 |}.

(** [Parameters(ModelType, const std::string &, int w, int h)]. *)
Definition Parameters4 (modelType : ModelType) (cameraName : String.string)
  (w h : Z) : Parameters :=
  {| m_modelType := modelType;
     m_nIntrinsics := switch_nIntrinsics modelType;
     m_cameraName := cameraName;
     m_imageWidth := w;
     m_imageHeight := h |}.

(** The [const] accessors return the members by value. *)
Definition modelType (p : Parameters) : ModelType := m_modelType p.
Definition cameraName (p : Parameters) : String.string := m_cameraName p.
Definition imageWidth (p : Parameters) : Z := m_imageWidth p.
Definition imageHeight (p : Parameters) : Z := m_imageHeight p.
Definition nIntrinsics (p : Parameters) : Z := m_nIntrinsics p.

(** The non-[const] accessors return a reference to the member: what a
    caller can do with it is to read it or to assign through it.  An
    assignment through the reference overwrites that one member and
    nothing else.  There is no non-[const] accessor for [m_nIntrinsics]. *)
Definition assign_modelType (v : ModelType) (p : Parameters) : Parameters :=
  {| m_modelType := v;
     m_nIntrinsics := m_nIntrinsics p;
     m_cameraName := m_cameraName p;
     m_imageWidth := m_imageWidth p;
     m_imageHeight := m_imageHeight p |}.

Definition assign_cameraName (v : String.string) (p : Parameters) : Parameters :=
  {| m_modelType := m_modelType p;
     m_nIntrinsics := m_nIntrinsics p;
     m_cameraName := v;
     m_imageWidth := m_imageWidth p;
     m_imageHeight := m_imageHeight p |}.

Definition assign_imageWidth (v : Z) (p : Parameters) : Parameters :=
  {| m_modelType := m_modelType p;
     m_nIntrinsics := m_nIntrinsics p;
     m_cameraName := m_cameraName p;
     m_imageWidth := v;
     m_imageHeight := m_imageHeight p |}.

Definition assign_imageHeight (v : Z) (p : Parameters) : Parameters :=
  {| m_modelType := m_modelType p;
     m_nIntrinsics := m_nIntrinsics p;
     m_cameraName := m_cameraName p;
     m_imageWidth := m_imageWidth p;
     m_imageHeight := v |}.

(** One call on a [Parameters] object: a read through any accessor, or a
    write through one of the four references. *)
Inductive call : Type :=
| read_modelType
| read_cameraName
| read_imageWidth
| read_imageHeight
| read_nIntrinsics
| write_modelType (v : ModelType)
| write_cameraName (v : String.string)
| write_imageWidth (v : Z)
| write_imageHeight (v : Z).

Definition step (p : Parameters) (c : call) : Parameters :=
  match c with
  | write_modelType v => assign_modelType v p
  | write_cameraName v => assign_cameraName v p
  | write_imageWidth v => assign_imageWidth v p
  | write_imageHeight v => assign_imageHeight v p
  | _ => p
  end.

(** The object after a sequence of calls, first call first. *)
Definition run (p : Parameters) (cs : list call) : Parameters :=
  fold_left step cs p.

(** The two objects a constructor can produce for a given tag. *)
Inductive constructed (modelType : ModelType) : Parameters -> Prop :=
| by_Parameters1 : constructed modelType (Parameters1 modelType)
| by_Parameters4 : forall cameraName w h,
    constructed modelType (Parameters4 modelType cameraName w h).

(** The count is the one of the current tag: 8 for [PINHOLE] and
    [KANNALA_BRANDT], 9 for [MEI]. *)
Definition consistent (p : Parameters) : Prop :=
  match modelType p with
  | PINHOLE | KANNALA_BRANDT => nIntrinsics p = 8%Z
  | MEI => nIntrinsics p = 9%Z
  end.

(** A call that leaves the tag in the same group of counts: every read,
    every write to another member, and a write of a tag whose count is
    the one [p] holds. *)
Definition keeps_count (n : Z) (c : call) : bool :=
  match c with
  | write_modelType v => Z.eqb (switch_nIntrinsics v) n
  | _ => true
  end.

End Params.

(* ================================================================== *)
(** * Part II.  Numbers, vectors, matrices and points *)
(* ================================================================== *)

(** The scalar operations the source performs, on [double] (carrier [D])
    and on [float] (carrier [F], the coordinates of [cv::Point2f] and
    [cv::Point3f]).  The algorithms are written once over this interface,
    as the source writes them once over the lens models; it is
    instantiated below by exact real arithmetic and by IEEE 754 binary64
    and binary32. *)
Class Arith (D F : Type) : Type := {
  d_zero : D;                      (* the literal 0.0 *)
  d_one : D;                       (* the literal 1.0 *)
  d_add : D -> D -> D;
  d_sub : D -> D -> D;
  d_mul : D -> D -> D;
  d_div : D -> D -> D;
  d_sqrt : D -> D;
  d_of_size : nat -> D;            (* conversion size_t -> double *)
  d_is_zero : D -> bool;           (* x == 0.0 *)
  f_zero : F;                      (* the literal 0.0f *)
  f_sub : F -> F -> F;
  d2f : D -> F;                    (* narrowing double -> float *)
  f2d : F -> D                     (* widening float -> double *)
}.

(** [ctain::Vector2d]: [e0] is [p(0)], [e1] is [p(1)]. *)
Record Vector2d (D : Type) : Type := mkVector2d { e0 : D; e1 : D }.

(** [ctain::Vector3d], and [ctain::Vectord] used with three rows. *)
Record Vector3d (D : Type) : Type := mkVector3d { w0 : D; w1 : D; w2 : D }.

(** [ctain::MatrixXd R(3, 3)], filled row by row. *)
Record Matrix3d (D : Type) : Type := mkMatrix3d {
  r00 : D; r01 : D; r02 : D;
  r10 : D; r11 : D; r12 : D;
  r20 : D; r21 : D; r22 : D
}.

(** [ctain::Quaterniond]. *)
Record Quaterniond (D : Type) : Type := mkQuaterniond {
  q_x : D; q_y : D; q_z : D; q_w : D
}.

(** [cv::Point2f] and [cv::Point3f]. *)
Record Point2f (F : Type) : Type := mkPoint2f { p2_x : F; p2_y : F }.
Record Point3f (F : Type) : Type := mkPoint3f { p3_x : F; p3_y : F; p3_z : F }.

(** [cv::Mat] with one channel: its size and its elements, row after row. *)
Record Mat (A : Type) : Type := mkMat {
  rows : nat;
  cols : nat;
  data : list A
}.

Section Containers.
Context {D F : Type} {AR : Arith D F}.

(** [m.at<double>(i, j)] and [m.at<double>(i)].  OpenCV does not check the
    indices in a release build; outside the matrix the model reads [0.0]. *)
Definition at2 (m : Mat D) (i j : nat) : D :=
  nth (i * cols m + j) (data m) d_zero.

Definition at1 (m : Mat D) (i : nat) : D :=
  nth i (data m) d_zero.

(** In-place update of one element of a list. *)
Fixpoint list_set {A : Type} (l : list A) (i : nat) (f : A -> A) : list A :=
  match l, i with
  | [], _ => []
  | a :: l', 0 => f a :: l'
  | a :: l', S i' => a :: list_set l' i' f
  end.

(** [m.at<double>(i) = v]. *)
Definition set_at1 (m : Mat D) (i : nat) (v : D) : Mat D :=
  {| rows := rows m; cols := cols m; data := list_set (data m) i (fun _ => v) |}.

(** [cv::Mat::eye(3, 3, CV_64F)]. *)
Definition eye33 : Mat D :=
  {| rows := 3; cols := 3;
     data := [d_one; d_zero; d_zero;
              d_zero; d_one; d_zero;
              d_zero; d_zero; d_one] |}.

(** [m.create(n, 1, CV_64F)]: a column of [n] elements.  Their initial
    content is unspecified; the model takes [0.0]. *)
Definition create_column (n : nat) : Mat D :=
  {| rows := n; cols := 1; data := repeat d_zero n |}.

(** Modelled from the spec: the small linear-algebra library [ctain] of
    the repository is not part of the sources at hand.  The spec names
    what it supplies: vector and matrix arithmetic, matrix-vector
    multiply, Euclidean norm.  [P / s] divides every component by [s]. *)
Definition vec3_div (P : Vector3d D) (s : D) : Vector3d D :=
  mkVector3d (d_div (w0 P) s) (d_div (w1 P) s) (d_div (w2 P) s).

(** Modelled from the spec: [a + b] of [ctain], component by component. *)
Definition vec3_add (a b : Vector3d D) : Vector3d D :=
  mkVector3d (d_add (w0 a) (w0 b)) (d_add (w1 a) (w1 b)) (d_add (w2 a) (w2 b)).

(** Modelled from the spec: [R * P] of [ctain], each row of [R] times [P],
    the products added from left to right. *)
Definition mat3_mul_vec (R : Matrix3d D) (P : Vector3d D) : Vector3d D :=
  mkVector3d
    (d_add (d_add (d_mul (r00 R) (w0 P)) (d_mul (r01 R) (w1 P))) (d_mul (r02 R) (w2 P)))
    (d_add (d_add (d_mul (r10 R) (w0 P)) (d_mul (r11 R) (w1 P))) (d_mul (r12 R) (w2 P)))
    (d_add (d_add (d_mul (r20 R) (w0 P)) (d_mul (r21 R) (w1 P))) (d_mul (r22 R) (w2 P))).

(** Modelled from the spec: [a - b] of [ctain], component by component. *)
Definition vec2_sub (a b : Vector2d D) : Vector2d D :=
  mkVector2d (d_sub (e0 a) (e0 b)) (d_sub (e1 a) (e1 b)).

(** Modelled from the spec: [a.norm()] of [ctain], the Euclidean norm. *)
Definition vec2_norm (a : Vector2d D) : D :=
  d_sqrt (d_add (d_mul (e0 a) (e0 a)) (d_mul (e1 a) (e1 a))).

(** OpenCV's [operator-] on [cv::Point2f]: a subtraction of [float]s,
    coordinate by coordinate. *)
Definition point2f_sub (a b : Point2f F) : Point2f F :=
  mkPoint2f (f_sub (p2_x a) (p2_x b)) (f_sub (p2_y a) (p2_y b)).

(** OpenCV's [cv::norm] of a [cv::Point2f]: the Euclidean norm, computed
    in [double] from the widened coordinates. *)
Definition cv_norm (a : Point2f F) : D :=
  d_sqrt (d_add (d_mul (f2d (p2_x a)) (f2d (p2_x a)))
                (d_mul (f2d (p2_y a)) (f2d (p2_y a)))).

(** The conversions the source writes between the two point types. *)
Definition to_Vector2d (a : Point2f F) : Vector2d D :=
  mkVector2d (f2d (p2_x a)) (f2d (p2_y a)).

Definition to_Vector3d (a : Point3f F) : Vector3d D :=
  mkVector3d (f2d (p3_x a)) (f2d (p3_y a)) (f2d (p3_z a)).

Definition to_Point2f (p : Vector2d D) : Point2f F :=
  mkPoint2f (d2f (e0 p)) (d2f (e1 p)).

End Containers.

(* ================================================================== *)
(** * Part III.  Exceptions, the call log and the loops *)
(* ================================================================== *)

(** What a call can throw: [std::out_of_range] from [std::vector::at], and
    whatever the OpenCV solver raises. *)
Inductive exn : Type :=
| out_of_range
| cv_Exception.

Inductive res (A : Type) : Type :=
| Ok (a : A)
| Throw (e : exn).

Arguments Throw {A} e.

(** The calls that leave the algorithms: the two virtual transforms of the
    lens model, the two OpenCV routines, and the one partial arithmetic
    operation, the division of a ray by a scalar. *)
Inductive Call (D F : Type) : Type :=
| call_liftProjective (p : Vector2d D)
| call_spaceToPlane (P : Vector3d D)
| call_Rodrigues (rvec : Mat D)
| call_solvePnP (objectPoints : list (Point3f F)) (imagePoints : list (Point2f F))
    (cameraMatrix : Mat D) (distCoeffs : option (Mat D))
| call_divide (P : Vector3d D) (s : D).

Arguments call_liftProjective {D F} p.
Arguments call_spaceToPlane {D F} P.
Arguments call_Rodrigues {D F} rvec.
Arguments call_divide {D F} P s.

(** A computation takes the log of the calls made so far and gives the
    extended log together with its outcome: a value, or an exception. *)
Definition M (D F A : Type) : Type :=
  list (Call D F) -> res A * list (Call D F).

Section Monad.
Context {D F : Type}.

Definition ret {A : Type} (a : A) : M D F A :=
  fun log => (Ok a, log).

Definition bind {A B : Type} (m : M D F A) (k : A -> M D F B) : M D F B :=
  fun log =>
    match m log with
    | (Ok a, log') => k a log'
    | (Throw e, log') => (Throw e, log')
    end.

Definition throw {A : Type} (e : exn) : M D F A :=
  fun log => (Throw e, log).

Definition tell (c : Call D F) : M D F unit :=
  fun log => (Ok tt, log ++ [c]).

Definition lift_res {A : Type} (r : res A) : M D F A :=
  fun log => (r, log).

(** The outcome of a computation started on an empty log, and the calls
    it makes. *)
Definition value_of {A : Type} (m : M D F A) : res A := fst (m []).

Definition calls_of {A : Type} (m : M D F A) : list (Call D F) := snd (m []).

End Monad.

Declare Scope monad_scope.
Delimit Scope monad_scope with monad.
Notation "x <- m ;; k" := (bind m (fun x => k))
  (at level 61, m at next level, right associativity) : monad_scope.
Notation "m ;; k" := (bind m (fun _ => k))
  (at level 61, right associativity) : monad_scope.
Open Scope monad_scope.

Section Loops.
Context {D F : Type}.

(** [v.at(i)]: the element, or [std::out_of_range]. *)
Definition at_ {A : Type} (v : list A) (i : nat) : M D F A :=
  match nth_error v i with
  | Some a => ret a
  | None => throw out_of_range
  end.

(** [v.at(i).field = ...]: an update of the element in place, or
    [std::out_of_range]. *)
Definition update_at {A : Type} (v : list A) (i : nat) (f : A -> A)
  : M D F (list A) :=
  match nth_error v i with
  | Some _ => ret (list_set v i f)
  | None => throw out_of_range
  end.

(** [for (i = first; i < first + count; ++i) body], threading the
    variables the body assigns. *)
Fixpoint for_range {S : Type} (first count : nat)
  (body : nat -> S -> M D F S) (s : S) : M D F S :=
  match count with
  | 0 => ret s
  | Datatypes.S count' =>
      s' <- body first s ;;
      for_range (Datatypes.S first) count' body s'
  end.

End Loops.

(* ================================================================== *)
(** * Part IV.  The camera and the shared algorithms *)
(* ================================================================== *)

(** The routines of the numerical libraries that are consumed as black
    boxes: [cv::Rodrigues] (on a rotation vector; a malformed argument, on
    which it would throw, is outside the model), [cv::solvePnP] (which
    receives the references [rvec] and [tvec] and may throw) and
    [ctain::Quaterniond::toRotationMatrix]. *)
Class Library (D F : Type) : Type := {
  Rodrigues : Mat D -> Mat D;
  solvePnP : list (Point3f F) -> list (Point2f F) -> Mat D -> option (Mat D) ->
             Mat D * Mat D -> res (Mat D * Mat D);
  toRotationMatrix : Quaterniond D -> Matrix3d D
}.

(** Modelled from the spec: the two pure virtual transforms of [Camera]
    are implemented by the lens models, outside the sources at hand.  Per
    the spec they make read-only use of the intrinsics of the model, here
    the state [Model] of the concrete class, and the mask plays no part
    in them. *)
Class CameraModel (D Model : Type) : Type := {
  spaceToPlane : Model -> Vector3d D -> Vector2d D;
  liftProjective : Model -> Vector2d D -> Vector3d D
}.

(** A camera object: the member [m_mask] of the base class (a
    single-channel image, empty when there is no mask) and the state of
    the concrete lens model. *)
Record Camera (Model : Type) : Type := mkCamera {
  m_mask : Mat Z;
  m_model : Model
}.

(** [mask() const] reads the member; the reference returned by [mask()]
    lets the caller replace it. *)
Definition mask {Model : Type} (cam : Camera Model) : Mat Z := m_mask cam.

Definition assign_mask {Model : Type} (v : Mat Z) (cam : Camera Model)
  : Camera Model :=
  {| m_mask := v; m_model := m_model cam |}.

(** The empty [cv::Mat]. *)
Definition empty_Mat {A : Type} : Mat A := {| rows := 0; cols := 0; data := [] |}.

(** What a caller can do with the mask: set or replace it, or clear it
    (leave the empty matrix). *)
Inductive mask_call : Type :=
| set_mask (v : Mat Z)
| clear_mask.

Definition mask_step {Model : Type} (cam : Camera Model) (c : mask_call)
  : Camera Model :=
  match c with
  | set_mask v => assign_mask v cam
  | clear_mask => assign_mask empty_Mat cam
  end.

(** The camera after a sequence of such calls, first call first. *)
Definition mask_run {Model : Type} (cam : Camera Model) (cs : list mask_call)
  : Camera Model :=
  fold_left mask_step cs cam.

Section Algorithms.
Context {D F Model : Type}.
Context {AR : Arith D F} {LIB : Library D F} {CM : CameraModel D Model}.

(** The logged calls. *)
Definition do_liftProjective (cam : Camera Model) (p : Vector2d D)
  : M D F (Vector3d D) :=
  tell (call_liftProjective p) ;; ret (liftProjective (m_model cam) p).

Definition do_spaceToPlane (cam : Camera Model) (P : Vector3d D)
  : M D F (Vector2d D) :=
  tell (call_spaceToPlane P) ;; ret (spaceToPlane (m_model cam) P).

Definition do_Rodrigues (rvec : Mat D) : M D F (Mat D) :=
  tell (call_Rodrigues rvec) ;; ret (Rodrigues rvec).

Definition do_solvePnP (objectPoints : list (Point3f F))
  (imagePoints : list (Point2f F)) (cameraMatrix : Mat D)
  (distCoeffs : option (Mat D)) (rt : Mat D * Mat D) : M D F (Mat D * Mat D) :=
  tell (call_solvePnP objectPoints imagePoints cameraMatrix distCoeffs) ;;
  lift_res (solvePnP objectPoints imagePoints cameraMatrix distCoeffs rt).

Definition do_divide (P : Vector3d D) (s : D) : M D F (Vector3d D) :=
  tell (call_divide P s) ;; ret (vec3_div P s).

(** [Camera::estimateExtrinsics] (lines 101-122).  The result is the new
    content of [rvec] and [tvec]. *)
Definition estimateExtrinsics (cam : Camera Model)
  (objectPoints : list (Point3f F)) (imagePoints : list (Point2f F))
  (rvec tvec : Mat D) : M D F (Mat D * Mat D) :=
  let Ms := repeat (mkPoint2f f_zero f_zero) (length imagePoints) in
  Ms <- for_range 0 (length Ms) (fun i Ms =>
      ip_x <- at_ imagePoints i ;;
      ip_y <- at_ imagePoints i ;;
      let p := mkVector2d (f2d (p2_x ip_x)) (f2d (p2_y ip_y)) in
      P <- do_liftProjective cam p ;;
      P <- do_divide P (w2 P) ;;
      Ms <- update_at Ms i (fun m => mkPoint2f (d2f (w0 P)) (p2_y m)) ;;
      update_at Ms i (fun m => mkPoint2f (p2_x m) (d2f (w1 P)))) Ms ;;
  (* assume unit focal length, zero principal point, and zero distortion *)
  do_solvePnP objectPoints Ms eye33 None (rvec, tvec).

(** [Camera::reprojectionDist] (lines 124-132). *)
Definition reprojectionDist (cam : Camera Model) (P1 P2 : Vector3d D)
  : M D F D :=
  p1 <- do_spaceToPlane cam P1 ;;
  p2 <- do_spaceToPlane cam P2 ;;
  ret (vec2_norm (vec2_sub p1 p2)).

(** [Camera::projectPoints] (lines 186-218).  [imagePoints] is the vector
    the caller passes by reference; the result is its content on return.
    [reserve] changes the capacity only. *)
Definition projectPoints (cam : Camera Model)
  (objectPoints : list (Point3f F)) (rvec tvec : Mat D)
  (imagePoints : list (Point2f F)) : M D F (list (Point2f F)) :=
  R0 <- do_Rodrigues rvec ;;
  let R := mkMatrix3d
             (at2 R0 0 0) (at2 R0 0 1) (at2 R0 0 2)
             (at2 R0 1 0) (at2 R0 1 1) (at2 R0 1 2)
             (at2 R0 2 0) (at2 R0 2 1) (at2 R0 2 2) in
  let t := mkVector3d (at1 tvec 0) (at1 tvec 1) (at1 tvec 2) in
  for_range 0 (length objectPoints) (fun i imagePoints =>
      objectPoint <- at_ objectPoints i ;;
      (* Rotate and translate *)
      let P := mkVector3d (f2d (p3_x objectPoint)) (f2d (p3_y objectPoint))
                          (f2d (p3_z objectPoint)) in
      let P := vec3_add (mat3_mul_vec R P) t in
      p <- do_spaceToPlane cam P ;;
      ret (imagePoints ++ [mkPoint2f (d2f (e0 p)) (d2f (e1 p))])) imagePoints.

(** The variables the outer loop of the multi-view [reprojectionError]
    assigns. *)
Record ErrState : Type := mkErrState {
  pointsSoFar : nat;
  totalErr : D;
  perViewErrors : option (Mat D)
}.

(** [Camera::reprojectionError], the overload over views (lines 134-171).
    [computePerViewErrors] is [_perViewErrors.needed()]; the result is the
    returned [double] and, when needed, the content of [_perViewErrors].
    Sizes are natural numbers: [int imageCount] is taken not to overflow.
    The three [at(i)] in the arguments of [projectPoints] throw the same
    exception, so the order in which they are evaluated does not show. *)
Definition reprojectionError (cam : Camera Model)
  (objectPoints : list (list (Point3f F)))
  (imagePoints : list (list (Point2f F)))
  (rvecs tvecs : list (Mat D)) (computePerViewErrors : bool)
  : M D F (D * option (Mat D)) :=
  let imageCount := length objectPoints in
  let perViewErrors0 :=
    if computePerViewErrors then Some (create_column imageCount) else None in
  st <- for_range 0 imageCount (fun i st =>
      imagePoints_i <- at_ imagePoints i ;;
      let pointCount := length imagePoints_i in
      let pointsSoFar' := pointsSoFar st + pointCount in
      objectPoints_i <- at_ objectPoints i ;;
      rvec <- at_ rvecs i ;;
      tvec <- at_ tvecs i ;;
      estImagePoints <- projectPoints cam objectPoints_i rvec tvec [] ;;
      imagePoints_i <- at_ imagePoints i ;;
      err <- for_range 0 (length imagePoints_i) (fun j err =>
          imagePoints_i <- at_ imagePoints i ;;
          observed <- at_ imagePoints_i j ;;
          estimated <- at_ estImagePoints j ;;
          ret (d_add err (cv_norm (point2f_sub observed estimated)))) d_zero ;;
      let perViewErrors' :=
        if computePerViewErrors
        then option_map
               (fun m => set_at1 m i (d_div err (d_of_size pointCount)))
               (perViewErrors st)
        else perViewErrors st in
      ret (mkErrState pointsSoFar' (d_add (totalErr st) err) perViewErrors'))
    (mkErrState 0 d_zero perViewErrors0) ;;
  ret (d_div (totalErr st) (d_of_size (pointsSoFar st)), perViewErrors st).

(** [Camera::reprojectionError], the overload for one point with the pose
    given as a quaternion and a translation (lines 173-184). *)
Definition reprojectionError_q (cam : Camera Model) (P : Vector3d D)
  (camera_q : Quaterniond D) (camera_t : Vector3d D)
  (observed_p : Vector2d D) : M D F D :=
  let P_cam := vec3_add (mat3_mul_vec (toRotationMatrix camera_q) P) camera_t in
  p <- do_spaceToPlane cam P_cam ;;
  let res := vec2_sub p observed_p in
  ret (vec2_norm res).

End Algorithms.

(* ================================================================== *)
(** * Part V.  Two arithmetics and a small lens model *)
(* ================================================================== *)

(** Exact arithmetic: [double] and [float] are both the real numbers and
    the conversions between them do nothing. *)
Definition R_is_zero (x : R) : bool :=
  if Req_dec_T x 0%R then true else false.

#[export] Instance real_Arith : Arith R R := {|
  d_zero := 0%R;
  d_one := 1%R;
  d_add := Rplus;
  d_sub := Rminus;
  d_mul := Rmult;
  d_div := Rdiv;
  d_sqrt := R_sqrt.sqrt;
  d_of_size := INR;
  d_is_zero := R_is_zero;
  f_zero := 0%R;
  f_sub := Rminus;
  d2f := fun x => x;
  f2d := fun x => x
|}.

(** Machine arithmetic: [double] is IEEE 754 binary64, [float] is
    binary32.  A binary32 number is kept as the binary64 number of the
    same value. *)
Record float32 : Type := mkFloat32 { f32_val : PrimFloat.float }.

(** Rounding to the nearest binary32 number, ties to even (24 bits of
    precision, exponents below 128).  The four operations and the square
    root, computed in binary64 and then rounded to binary32, give the
    correctly rounded binary32 result. *)
Definition round32 (x : PrimFloat.float) : PrimFloat.float :=
  match FloatOps.Prim2SF x with
  | SpecFloat.S754_finite s m e =>
      FloatOps.SF2Prim
        (SpecFloat.binary_normalize 24 128 (SpecFloat.cond_Zopp s (Zpos m)) e s)
  | _ => x
  end.

#[export] Instance ieee_Arith : Arith PrimFloat.float float32 := {|
  d_zero := PrimFloat.zero;
  d_one := PrimFloat.one;
  d_add := PrimFloat.add;
  d_sub := PrimFloat.sub;
  d_mul := PrimFloat.mul;
  d_div := PrimFloat.div;
  d_sqrt := PrimFloat.sqrt;
  d_of_size := fun n => PrimFloat.of_uint63 (Uint63.of_Z (Z.of_nat n));
  d_is_zero := fun x => PrimFloat.eqb x PrimFloat.zero;
  f_zero := mkFloat32 PrimFloat.zero;
  f_sub := fun a b => mkFloat32 (round32 (PrimFloat.sub (f32_val a) (f32_val b)));
  d2f := fun x => mkFloat32 (round32 x);
  f2d := f32_val
|}.

(** The ideal pinhole camera with unit focal length and principal point
    at the origin: [(x, y, z)] projects to [(x / z, y / z)] and the pixel
    [(u, v)] lifts to the ray [(u, v, 1)].  It has no intrinsics. *)
Inductive UnitPinhole : Type := unit_pinhole.

Definition UnitPinhole_model {D F : Type} {AR : Arith D F}
  : CameraModel D UnitPinhole := {|
  spaceToPlane := fun _ P => mkVector2d (d_div (w0 P) (w2 P)) (d_div (w1 P) (w2 P));
  liftProjective := fun _ p => mkVector3d (e0 p) (e1 p) d_one
|}.

(** A stand-in for the numerical libraries that knows the identity pose
    only: the rotation matrix of the zero rotation vector and of the unit
    quaternion, and a solver that leaves [rvec] and [tvec] as they are. *)
Definition identity_Library {D F : Type} {AR : Arith D F}
  : Library D F := {|
  Rodrigues := fun _ => eye33;
  solvePnP := fun _ _ _ _ rt => Ok rt;
  toRotationMatrix := fun _ =>
    mkMatrix3d d_one d_zero d_zero d_zero d_one d_zero d_zero d_zero d_one
|}.

(** A column of three zeros, the zero rotation vector and the zero
    translation. *)
Definition zeros31 {D F : Type} {AR : Arith D F} : Mat D :=
  {| rows := 3; cols := 1; data := [d_zero; d_zero; d_zero] |}.

(* ================================================================== *)
(** * Part VI.  The notions the statements use *)
(* ================================================================== *)

(** One view of a calibration target: its object points, the image points
    observed, and the pose of the camera. *)
Record View (D F : Type) : Type := mkView {
  view_objectPoints : list (Point3f F);
  view_imagePoints : list (Point2f F);
  view_rvec : Mat D;
  view_tvec : Mat D
}.

(** The views of four collections, index by index, as far as all four go. *)
Fixpoint zip_views {D F : Type} (objectPoints : list (list (Point3f F)))
  (imagePoints : list (list (Point2f F))) (rvecs tvecs : list (Mat D))
  : list (View D F) :=
  match objectPoints, imagePoints, rvecs, tvecs with
  | o :: objectPoints', i :: imagePoints', r :: rvecs', t :: tvecs' =>
      mkView o i r t :: zip_views objectPoints' imagePoints' rvecs' tvecs'
  | _, _, _, _ => []
  end.

Section Notions.
Context {D F Model : Type}.
Context {AR : Arith D F} {LIB : Library D F} {CM : CameraModel D Model}.

(** The rotation matrix [R] and the translation [t] that [projectPoints]
    reads off its arguments. *)
Definition rotation_of (rvec : Mat D) : Matrix3d D :=
  let R0 := Rodrigues rvec in
  mkMatrix3d
    (at2 R0 0 0) (at2 R0 0 1) (at2 R0 0 2)
    (at2 R0 1 0) (at2 R0 1 1) (at2 R0 1 2)
    (at2 R0 2 0) (at2 R0 2 1) (at2 R0 2 2).

Definition translation_of (tvec : Mat D) : Vector3d D :=
  mkVector3d (at1 tvec 0) (at1 tvec 1) (at1 tvec 2).

(** [R * P + t]: the object point in the frame of the camera. *)
Definition camera_frame (rvec tvec : Mat D) (P : Point3f F) : Vector3d D :=
  vec3_add (mat3_mul_vec (rotation_of rvec) (to_Vector3d P)) (translation_of tvec).

(** The pixel of an object point under a pose. *)
Definition project (cam : Camera Model) (rvec tvec : Mat D) (P : Point3f F)
  : Point2f F :=
  to_Point2f (spaceToPlane (m_model cam) (camera_frame rvec tvec P)).

(** The calls one [projectPoints] makes, in order. *)
Definition projectPoints_calls (rvec tvec : Mat D)
  (objectPoints : list (Point3f F)) : list (Call D F) :=
  call_Rodrigues rvec ::
  map (fun P => call_spaceToPlane (camera_frame rvec tvec P)) objectPoints.

(** The number of [cv::Rodrigues] conversions in a log. *)
Definition count_Rodrigues (log : list (Call D F)) : nat :=
  length (filter (fun c => match c with call_Rodrigues _ => true | _ => false end) log).

(** The ray of an image point, the ray divided by its third component,
    and the first two components of the quotient as a [cv::Point2f]. *)
Definition lifted_ray (cam : Camera Model) (ip : Point2f F) : Vector3d D :=
  liftProjective (m_model cam) (to_Vector2d ip).

Definition normalized_ray (cam : Camera Model) (ip : Point2f F) : Vector3d D :=
  vec3_div (lifted_ray cam ip) (w2 (lifted_ray cam ip)).

Definition idealized_point (cam : Camera Model) (ip : Point2f F) : Point2f F :=
  mkPoint2f (d2f (w0 (normalized_ray cam ip))) (d2f (w1 (normalized_ray cam ip))).

(** The calls [estimateExtrinsics] makes for one image point. *)
Definition lift_calls (cam : Camera Model) (ip : Point2f F) : list (Call D F) :=
  [call_liftProjective (to_Vector2d ip);
   call_divide (lifted_ray cam ip) (w2 (lifted_ray cam ip))].

(** A logged division is defined when its divisor is not zero; the other
    calls are total. *)
Definition divide_defined (c : Call D F) : Prop :=
  match c with
  | call_divide _ s => d_is_zero s = false
  | _ => True
  end.

(** The sum of a list of [double]s the way the loops accumulate it: from
    [0.0], left to right. *)
Definition sum_from_zero (l : list D) : D := fold_left d_add l d_zero.

(** The Euclidean pixel distance of an observed and an estimated point. *)
Definition pixel_distance (observed estimated : Point2f F) : D :=
  cv_norm (point2f_sub observed estimated).

(** The distances of one view, point by point, their sum, and the number
    of points of the view. *)
Definition view_distances (cam : Camera Model) (v : View D F) : list D :=
  map (fun oe => pixel_distance (fst oe) (snd oe))
      (combine (view_imagePoints v)
               (map (project cam (view_rvec v) (view_tvec v)) (view_objectPoints v))).

Definition view_sum (cam : Camera Model) (v : View D F) : D :=
  sum_from_zero (view_distances cam v).

Definition view_count (v : View D F) : nat := length (view_imagePoints v).

Definition view_calls (v : View D F) : list (Call D F) :=
  projectPoints_calls (view_rvec v) (view_tvec v) (view_objectPoints v).

(** The per-view error of a view, and the matrix of the per-view errors. *)
Definition view_error (cam : Camera Model) (v : View D F) : D :=
  d_div (view_sum cam v) (d_of_size (view_count v)).

Definition perViewErrors_of (cam : Camera Model) (vs : list (View D F)) : Mat D :=
  {| rows := length vs; cols := 1; data := map (view_error cam) vs |}.

(** The total distance over all views, and the total number of points. *)
Definition total_sum (cam : Camera Model) (vs : list (View D F)) : D :=
  sum_from_zero (map (view_sum cam) vs).

Definition total_count (vs : list (View D F)) : nat :=
  list_sum (map view_count vs).

(** The mean of the per-view means, which the aggregate is not. *)
Definition mean_of_means (cam : Camera Model) (vs : list (View D F)) : D :=
  d_div (sum_from_zero (map (view_error cam) vs)) (d_of_size (length vs)).

(** The matrix of the per-view errors while the outer loop runs: the
    errors of the first [k] views, the other entries not yet written. *)
Definition pending_errors (cam : Camera Model) (vs : list (View D F))
  (computePerViewErrors : bool) (k : nat) : option (Mat D) :=
  if computePerViewErrors
  then Some {| rows := length vs; cols := 1;
               data := map (view_error cam) (firstn k vs) ++
                       repeat d_zero (length vs - k) |}
  else None.

(** Every estimated point of a view is the observed one. *)
Definition view_coincides (cam : Camera Model) (v : View D F) : Prop :=
  Forall (fun oe => fst oe = snd oe)
         (combine (view_imagePoints v)
                  (map (project cam (view_rvec v) (view_tvec v)) (view_objectPoints v))).

(** The identity matrix and the zero vector of [ctain]. *)
Definition identity3 : Matrix3d D :=
  mkMatrix3d d_one d_zero d_zero d_zero d_one d_zero d_zero d_zero d_one.

Definition zero3 : Vector3d D := mkVector3d d_zero d_zero d_zero.

(** An object point that the identity pose leaves where it is: the
    products by 1 and by 0 and the sums with 0 are exact on its
    coordinates. *)
Definition fixed_by_identity (P : Point3f F) : Prop :=
  vec3_add (mat3_mul_vec identity3 (to_Vector3d P)) zero3 = to_Vector3d P.

End Notions.

(* ================================================================== *)
(** * Part VI, continued.  Notions of the further facts *)
(* ================================================================== *)

(** The member of a [Parameters] object that a sequence of calls leaves:
    the value of the last write through its reference, or [d], the value
    before the calls, when nothing was written to it. *)
Module ParamsWrites.
Import Params.

Fixpoint last_modelType (cs : list call) (d : ModelType) : ModelType :=
  match cs with
  | [] => d
  | write_modelType v :: cs' => last_modelType cs' v
  | _ :: cs' => last_modelType cs' d
  end.

Fixpoint last_cameraName (cs : list call) (d : String.string) : String.string :=
  match cs with
  | [] => d
  | write_cameraName v :: cs' => last_cameraName cs' v
  | _ :: cs' => last_cameraName cs' d
  end.

Fixpoint last_imageWidth (cs : list call) (d : Z) : Z :=
  match cs with
  | [] => d
  | write_imageWidth v :: cs' => last_imageWidth cs' v
  | _ :: cs' => last_imageWidth cs' d
  end.

Fixpoint last_imageHeight (cs : list call) (d : Z) : Z :=
  match cs with
  | [] => d
  | write_imageHeight v :: cs' => last_imageHeight cs' v
  | _ :: cs' => last_imageHeight cs' d
  end.

End ParamsWrites.

(** The sizes on which the multi-view [reprojectionError] reads no vector
    out of range, as a test: for every index of [objectPoints] there are
    image points, a rotation and a translation, and the view has no more
    image points than object points. *)
Fixpoint sized {D F : Type} (objectPoints : list (list (Point3f F)))
  (imagePoints : list (list (Point2f F))) (rvecs tvecs : list (Mat D)) : bool :=
  match objectPoints with
  | [] => true
  | o :: objectPoints' =>
      match imagePoints, rvecs, tvecs with
      | i :: imagePoints', r :: rvecs', t :: tvecs' =>
          (length i <=? length o) && sized objectPoints' imagePoints' rvecs' tvecs'
      | _, _, _ => false
      end
  end.

(** The same sizes, as the caller would state them. *)
Definition in_range {D F : Type} (objectPoints : list (list (Point3f F)))
  (imagePoints : list (list (Point2f F))) (rvecs tvecs : list (Mat D)) : Prop :=
  length objectPoints <= length imagePoints /\
  length objectPoints <= length rvecs /\
  length objectPoints <= length tvecs /\
  forall k o i, nth_error objectPoints k = Some o ->
                nth_error imagePoints k = Some i -> length i <= length o.

(** The object points that enter the error: of every view, as many as
    the view has image points. *)
Fixpoint trim_objectPoints {F : Type} (objectPoints : list (list (Point3f F)))
  (imagePoints : list (list (Point2f F))) : list (list (Point3f F)) :=
  match objectPoints, imagePoints with
  | o :: objectPoints', i :: imagePoints' =>
      firstn (length i) o :: trim_objectPoints objectPoints' imagePoints'
  | _, _ => []
  end.

(** The outcome of a computation under a function of its value. *)
Definition res_map {A B : Type} (f : A -> B) (r : res A) : res B :=
  match r with
  | Ok a => Ok (f a)
  | Throw e => Throw e
  end.

Section FurtherNotions.
Context {D F Model : Type}.
Context {AR : Arith D F} {LIB : Library D F} {CM : CameraModel D Model}.

(** The body of the inner loop of the multi-view [reprojectionError]
    (lines 159-161), for the view [i] and its estimated points. *)
Definition inner_body (imagePoints : list (list (Point2f F))) (i : nat)
  (estImagePoints : list (Point2f F)) (j : nat) (err : D) : M D F D :=
  imagePoints_i <- at_ imagePoints i ;;
  observed <- at_ imagePoints_i j ;;
  estimated <- at_ estImagePoints j ;;
  ret (d_add err (cv_norm (point2f_sub observed estimated))).

(** The body of its outer loop (lines 150-168). *)
Definition outer_body (cam : Camera Model)
  (objectPoints : list (list (Point3f F)))
  (imagePoints : list (list (Point2f F)))
  (rvecs tvecs : list (Mat D)) (computePerViewErrors : bool)
  (i : nat) (st : ErrState) : M D F ErrState :=
  imagePoints_i <- at_ imagePoints i ;;
  let pointCount := length imagePoints_i in
  let pointsSoFar' := pointsSoFar st + pointCount in
  objectPoints_i <- at_ objectPoints i ;;
  rvec <- at_ rvecs i ;;
  tvec <- at_ tvecs i ;;
  estImagePoints <- projectPoints cam objectPoints_i rvec tvec [] ;;
  imagePoints_i <- at_ imagePoints i ;;
  err <- for_range 0 (length imagePoints_i)
           (inner_body imagePoints i estImagePoints) d_zero ;;
  let perViewErrors' :=
    if computePerViewErrors
    then option_map
           (fun m => set_at1 m i (d_div err (d_of_size pointCount)))
           (perViewErrors st)
    else perViewErrors st in
  ret (mkErrState pointsSoFar' (d_add (totalErr st) err) perViewErrors').

(** Two calls of [projectPoints] for the same pose, the second on the
    vector the first has filled. *)
Definition projectPoints_twice (cam : Camera Model)
  (first second : list (Point3f F)) (rvec tvec : Mat D)
  (imagePoints : list (Point2f F)) : M D F (list (Point2f F)) :=
  out <- projectPoints cam first rvec tvec imagePoints ;;
  projectPoints cam second rvec tvec out.

(** The number of calls of [spaceToPlane] in a log. *)
Definition count_spaceToPlane (log : list (Call D F)) : nat :=
  length (filter (fun c => match c with call_spaceToPlane _ => true | _ => false end)
                 log).

(** The point of the plane [z = 1] on the ray of a camera-frame point,
    as a [cv::Point2f]: what a distortion-free pinhole of unit focal
    length sees of it. *)
Definition normalized_pixel (Q : Vector3d D) : Point2f F :=
  mkPoint2f (d2f (d_div (w0 Q) (w2 Q))) (d2f (d_div (w1 Q) (w2 Q))).

(** [k * Q], component by component. *)
Definition vec3_scale (k : D) (Q : Vector3d D) : Vector3d D :=
  mkVector3d (d_mul k (w0 Q)) (d_mul k (w1 Q)) (d_mul k (w2 Q)).

(** A lens model lifts the pixel of the camera-frame point [Q] back onto
    the ray of [Q], and [Q] is not in the plane of the optical centre. *)
Definition lifts_back (cam : Camera Model) (Q : Vector3d D) : Prop :=
  d_is_zero (w2 Q) = false /\
  exists k : D,
    d_is_zero k = false /\
    liftProjective (m_model cam) (spaceToPlane (m_model cam) Q) = vec3_scale k Q.

End FurtherNotions.

(* ================================================================== *)
(** * Part VI, continued.  Notions of binary64 *)
(* ================================================================== *)

(** A binary64 number that is a zero, a subnormal or a normal number:
    not an infinity and not NaN. *)
Definition finite64 (x : PrimFloat.float) : bool :=
  match FloatOps.Prim2SF x with
  | SpecFloat.S754_zero _ | SpecFloat.S754_finite _ _ _ => true
  | _ => false
  end.

(** The number [-0.0]. *)
Definition negative_zero (x : PrimFloat.float) : bool :=
  match FloatOps.Prim2SF x with
  | SpecFloat.S754_zero true => true
  | _ => false
  end.

(** A binary64 number whose sign bit is clear, or NaN; and one that is
    moreover neither a zero nor NaN. *)
Definition sf_unsigned (x : SpecFloat.spec_float) : bool :=
  match x with
  | SpecFloat.S754_zero s | SpecFloat.S754_infinity s
  | SpecFloat.S754_finite s _ _ => negb s
  | SpecFloat.S754_nan => true
  end.

Definition sf_positive (x : SpecFloat.spec_float) : bool :=
  match x with
  | SpecFloat.S754_infinity s | SpecFloat.S754_finite s _ _ => negb s
  | _ => false
  end.

Definition unsigned64 (x : PrimFloat.float) : bool :=
  sf_unsigned (FloatOps.Prim2SF x).

Definition positive64 (x : PrimFloat.float) : bool :=
  sf_positive (FloatOps.Prim2SF x).

(** [0.0 <= d], or [d] is NaN. *)
Definition nonneg_or_nan (d : PrimFloat.float) : bool :=
  PrimFloat.leb PrimFloat.zero d || PrimFloat.is_nan d.

(** Points and pixels with finite coordinates. *)
Definition finite_point (P : Point3f float32) : bool :=
  finite64 (f32_val (p3_x P)) && finite64 (f32_val (p3_y P)) &&
  finite64 (f32_val (p3_z P)).

Definition finite_pixel (p : Point2f float32) : bool :=
  finite64 (f32_val (p2_x p)) && finite64 (f32_val (p2_y p)).

Definition finite_vector2 (p : Vector2d PrimFloat.float) : bool :=
  finite64 (e0 p) && finite64 (e1 p).

(** A point none of whose coordinates is [-0.0]. *)
Definition no_negative_zero (P : Point3f float32) : bool :=
  negb (negative_zero (f32_val (p3_x P))) &&
  negb (negative_zero (f32_val (p3_y P))) &&
  negb (negative_zero (f32_val (p3_z P))).

(** The point with [0.0] added to every coordinate: a coordinate [-0.0]
    becomes [0.0], every other finite coordinate stays what it is. *)
Definition plus_zero (P : Point3f float32) : Vector3d PrimFloat.float :=
  mkVector3d (PrimFloat.add (f32_val (p3_x P)) PrimFloat.zero)
             (PrimFloat.add (f32_val (p3_y P)) PrimFloat.zero)
             (PrimFloat.add (f32_val (p3_z P)) PrimFloat.zero).

(* ================================================================== *)
(** * Part VII.  Sample inputs in machine arithmetic *)
(* ================================================================== *)

(** Concrete inputs in binary64 and binary32, for the unit pinhole camera
    at the identity pose. *)
Module Sample.
Import PrimFloat.

(** A binary64 number that is a binary32 number, as a [float]. *)
Definition f32 (x : float) : float32 := mkFloat32 x.

Definition pinhole_camera : Camera UnitPinhole :=
  {| m_mask := empty_Mat; m_model := unit_pinhole |}.

(** The zero rotation vector, and the zero translation. *)
Definition no_motion : Mat float := zeros31.

(** The object point at distance 1 on the optical axis; it projects to
    the pixel (0, 0). *)
Definition on_axis : Point3f float32 :=
  mkPoint3f (f32 0%float) (f32 0%float) (f32 1%float).

Definition pixel (u v : float) : Point2f float32 := mkPoint2f (f32 u) (f32 v).

(** A view of [n] copies of [on_axis], each observed at the same pixel. *)
Definition view_of (n : nat) (observed : Point2f float32) : View float float32 :=
  {| view_objectPoints := repeat on_axis n;
     view_imagePoints := repeat observed n;
     view_rvec := no_motion;
     view_tvec := no_motion |}.

(** The binary64 square root of 53, about 7.280109889280518, and the
    next binary64 number above it. *)
Definition sqrt_53 : float := 0x1.d1ed52076fbe9p+2%float.

Definition sqrt_53_up : float := 0x1.d1ed52076fbeap+2%float.

(** Four object points and their pixels under the unit pinhole. *)
Definition board : list (Point3f float32) :=
  [mkPoint3f (f32 1%float) (f32 2%float) (f32 4%float);
   mkPoint3f (f32 3%float) (f32 1%float) (f32 2%float);
   mkPoint3f (f32 (-1)%float) (f32 0.5%float) (f32 2%float);
   mkPoint3f (f32 0%float) (f32 0%float) (f32 1%float)].

Definition corners : list (Point2f float32) :=
  [pixel 0.25%float 0.5%float; pixel 1.5%float 0.5%float;
   pixel (-0.5)%float 0.25%float; pixel 0%float 0%float].

End Sample.

(** Views whose collections are not aligned: the first has three object
    points for two image points, and there are image points and a
    rotation for a third view that has no object points. *)
Module Surplus.
Import PrimFloat Sample.

Definition surplus_objectPoints : list (list (Point3f float32)) :=
  [[on_axis; on_axis; on_axis]; [on_axis]].

Definition surplus_imagePoints : list (list (Point2f float32)) :=
  [[pixel 2%float 0%float; pixel 0%float 2%float]; [pixel 0%float 3%float];
   [pixel 1%float 1%float]].

Definition surplus_rvecs : list (Mat float) :=
  [no_motion; no_motion; no_motion].

Definition surplus_tvecs : list (Mat float) := [no_motion; no_motion].

End Surplus.

(** A camera, points, observations and poses in exact arithmetic. *)
Module Exact.

Definition exact_camera : Camera UnitPinhole :=
  {| m_mask := empty_Mat; m_model := unit_pinhole |}.

Definition exact_no_motion : Mat R := zeros31 (AR := real_Arith).

Definition unit_quaternion : Quaterniond R := mkQuaterniond 0%R 0%R 0%R 1%R.

Definition exact_points : list (Point3f R) :=
  [mkPoint3f 1%R 2%R 4%R; mkPoint3f 3%R (-1)%R 2%R].

Definition exact_objectPoints : list (list (Point3f R)) :=
  [exact_points; exact_points].

Definition exact_imagePoints : list (list (Point2f R)) :=
  [[mkPoint2f 0%R 0%R; mkPoint2f 1%R 1%R]; [mkPoint2f 0%R 0%R]].

Definition exact_rvecs : list (Mat R) := [exact_no_motion; exact_no_motion].

Definition exact_tvecs : list (Mat R) := [exact_no_motion; exact_no_motion].

End Exact.

(** Points at the edge of binary64: a point with a coordinate [-0.0],
    points on and off the plane of the optical centre, a point [2^-600]
    off the optical axis, and a point with an infinite coordinate. *)
Module Edge.
Import PrimFloat Sample.

Definition behind_zero : Point3f float32 :=
  mkPoint3f (f32 1%float) (f32 1%float) (f32 (-0)%float).

Definition in_plane : Vector3d float := mkVector3d 1%float 1%float 0%float.

Definition ahead : Vector3d float := mkVector3d 1%float 1%float 1%float.

Definition barely_off_axis : Vector3d float :=
  mkVector3d 0x1p-600%float 0%float 1%float.

Definition on_the_axis : Vector3d float := mkVector3d 0%float 0%float 1%float.

Definition far_away : Point3f float32 :=
  mkPoint3f (f32 infinity) (f32 1%float) (f32 1%float).

End Edge.

(* ================================================================== *)
(** * Part VIII.  Facts *)
(* ================================================================== *)

Unset Implicit Arguments.

(** ** The parameter set *)

Module ParamsFacts.
Import Params.
Import String.

Lemma step_nIntrinsics (p : Parameters) (c : call) :
  nIntrinsics (step p c) = nIntrinsics p.
Proof. destruct c; reflexivity. Qed.

Lemma run_nIntrinsics (cs : list call) :
  forall p, nIntrinsics (run p cs) = nIntrinsics p.
Proof.
  unfold run. induction cs as [|c cs IH]; intros p; simpl.
  - reflexivity.
  - rewrite IH. apply step_nIntrinsics.
Qed.

Lemma consistent_iff (p : Parameters) :
  consistent p <-> nIntrinsics p = switch_nIntrinsics (modelType p).
Proof.
  unfold consistent. destruct (modelType p); simpl; tauto.
Qed.

Lemma constructed_consistent (mt : ModelType) (p : Parameters) :
  constructed mt p ->
  modelType p = mt /\ nIntrinsics p = switch_nIntrinsics mt.
Proof. intros H; destruct H; split; reflexivity. Qed.

Lemma step_keeps_count (n : Z) (p : Parameters) (c : call) :
  keeps_count n c = true ->
  switch_nIntrinsics (modelType p) = n ->
  switch_nIntrinsics (modelType (step p c)) = n.
Proof.
  destruct c; simpl; intros Hk Hp; try exact Hp.
  unfold modelType; simpl. apply Z.eqb_eq in Hk. exact Hk.
Qed.

Lemma run_keeps_count (n : Z) (cs : list call) :
  forall p, forallb (keeps_count n) cs = true ->
  switch_nIntrinsics (modelType p) = n ->
  switch_nIntrinsics (modelType (run p cs)) = n.
Proof.
  unfold run. induction cs as [|c cs IH]; intros p Hall Hp; simpl in *.
  - exact Hp.
  - apply andb_true_iff in Hall as [Hc Hcs].
    apply IH; [exact Hcs|]. now apply step_keeps_count.
Qed.

(** C1, as amended: after construction and after any sequence of accessor
    calls, [nIntrinsics()] is the count of the tag the constructor was
    given, 8 for [PINHOLE] and [KANNALA_BRANDT] and 9 for [MEI]: no
    accessor changes it.  It is the count of the current [modelType()] as
    long as every tag written through the non-[const] [modelType()] has
    the count of the constructor's tag. *)
Theorem nIntrinsics_fixed_at_construction (mt : ModelType) (p : Parameters)
  (cs : list call) :
  constructed mt p ->
  nIntrinsics (run p cs) = switch_nIntrinsics mt /\
  (forallb (keeps_count (switch_nIntrinsics mt)) cs = true ->
   consistent (run p cs)).
Proof.
  intros Hc. apply constructed_consistent in Hc as [Hm Hn].
  split.
  - rewrite run_nIntrinsics. exact Hn.
  - intros Hall. apply consistent_iff.
    rewrite run_nIntrinsics, Hn. symmetry.
    apply run_keeps_count; [exact Hall|]. now rewrite Hm.
Qed.

(** The theorem at a pinhole camera whose size is changed and whose tag
    is rewritten to the other 8-coefficient model. *)
Lemma nIntrinsics_fixed_at_construction_witness :
  let p := run (Parameters4 PINHOLE "left"%string 752 480)
               [write_imageWidth 1280; read_nIntrinsics;
                write_modelType KANNALA_BRANDT; write_imageHeight 720] in
  nIntrinsics p = 8%Z /\ consistent p.
Proof.
  destruct (@nIntrinsics_fixed_at_construction PINHOLE
              (Parameters4 PINHOLE "left"%string 752 480)
              [write_imageWidth 1280; read_nIntrinsics;
               write_modelType KANNALA_BRANDT; write_imageHeight 720]
              (by_Parameters4 PINHOLE "left"%string 752 480)) as [H1 H2].
  split; [exact H1 | apply H2; reflexivity].
Defined.

(** C1 fails as stated: a write of [MEI] through the reference that
    [modelType()] returns, on a parameter set built for [PINHOLE], leaves
    the count at 8 while the tag asks for 9. *)
Lemma nIntrinsics_diverges_from_modelType :
  let p := run (Parameters1 PINHOLE) [write_modelType MEI] in
  modelType p = MEI /\ nIntrinsics p = 8%Z /\ ~ consistent p.
Proof.
  cbv zeta. split; [reflexivity|]. split; [reflexivity|].
  unfold consistent; simpl. discriminate.
Qed.

End ParamsFacts.


(** ** Lists, loops and the log *)

Section ListFacts.
Context {A B : Type}.

Lemma firstn_snoc (l : list A) :
  forall i a, nth_error l i = Some a -> firstn (S i) l = firstn i l ++ [a].
Proof.
  induction l as [|x l IH]; intros [|i] a H; simpl in *; try discriminate.
  - now inversion H.
  - f_equal. now apply IH.
Qed.

Lemma nth_error_in_range (l : list A) (i : nat) :
  i < length l -> exists a, nth_error l i = Some a.
Proof.
  intros H. destruct (nth_error l i) as [a|] eqn:E.
  - now exists a.
  - apply nth_error_None in E. lia.
Qed.

Lemma flat_map_seq_nth_error (g : A -> list B) (l : list A) :
  flat_map (fun i => match nth_error l i with Some a => g a | None => [] end)
           (seq 0 (length l)) = flat_map g l.
Proof.
  induction l as [|x l IH]; simpl.
  - reflexivity.
  - f_equal. rewrite <- seq_shift, flat_map_concat_map, map_map,
      <- flat_map_concat_map. exact IH.
Qed.

Lemma list_set_length (l : list A) (f : A -> A) :
  forall i, length (list_set l i f) = length l.
Proof.
  induction l as [|x l IH]; intros [|i]; simpl; try reflexivity.
  now rewrite IH.
Qed.

Lemma list_set_middle (pre post : list A) (x : A) (f : A -> A) :
  list_set (pre ++ x :: post) (length pre) f = pre ++ f x :: post.
Proof.
  induction pre as [|y pre IH]; simpl.
  - reflexivity.
  - now rewrite IH.
Qed.

Lemma nth_error_middle (pre post : list A) (x : A) :
  nth_error (pre ++ x :: post) (length pre) = Some x.
Proof.
  induction pre as [|y pre IH]; simpl; [reflexivity | exact IH].
Qed.

End ListFacts.

Section LoopFacts.
Context {D F : Type}.

(** A loop whose state after [i] rounds is [Rep i], and whose round [i]
    logs [ev i], runs to [Rep (first + count)]. *)
Lemma for_range_invariant {S : Type} (body : nat -> S -> M D F S)
  (Rep : nat -> S) (ev : nat -> list (Call D F)) :
  forall count first log,
    (forall i log', first <= i < first + count ->
       body i (Rep i) log' = (Ok (Rep (Datatypes.S i)), log' ++ ev i)) ->
    for_range first count body (Rep first) log =
    (Ok (Rep (first + count)), log ++ flat_map ev (seq first count)).
Proof.
  induction count as [|count IH]; intros first log H; simpl.
  - unfold ret. now rewrite Nat.add_0_r, app_nil_r.
  - unfold bind. rewrite H by lia.
    rewrite IH.
    + now rewrite Nat.add_succ_r, <- app_assoc.
    + intros i log' Hi. apply H. lia.
Qed.

Lemma for_range_from_zero {S : Type} (body : nat -> S -> M D F S)
  (Rep : nat -> S) (ev : nat -> list (Call D F)) (n : nat) (s : S)
  (log : list (Call D F)) :
  s = Rep 0 ->
  (forall i log', i < n ->
     body i (Rep i) log' = (Ok (Rep (Datatypes.S i)), log' ++ ev i)) ->
  for_range 0 n body s log = (Ok (Rep n), log ++ flat_map ev (seq 0 n)).
Proof.
  intros -> H. rewrite for_range_invariant with (ev := ev).
  - reflexivity.
  - intros i log' Hi. apply H. lia.
Qed.

Lemma at_in_range {A : Type} (v : list A) (i : nat) (a : A)
  (log : list (Call D F)) :
  nth_error v i = Some a -> at_ v i log = (Ok a, log).
Proof. intros H. unfold at_. now rewrite H. Qed.

Lemma update_at_in_range {A : Type} (v : list A) (i : nat) (a : A)
  (f : A -> A) (log : list (Call D F)) :
  nth_error v i = Some a -> update_at v i f log = (Ok (list_set v i f), log).
Proof. intros H. unfold update_at. now rewrite H. Qed.

End LoopFacts.

Section ProjectPointsFacts.
Context {D F Model : Type}.
Context {AR : Arith D F} {LIB : Library D F} {CM : CameraModel D Model}.

Lemma map_singleton_flat_map {A B : Type} (g : A -> B) (l : list A) :
  flat_map (fun a => [g a]) l = map g l.
Proof. induction l; simpl; congruence. Qed.

Lemma projectPoints_run (cam : Camera Model) (objectPoints : list (Point3f F))
  (rvec tvec : Mat D) (imagePoints : list (Point2f F)) (log : list (Call D F)) :
  projectPoints cam objectPoints rvec tvec imagePoints log =
  (Ok (imagePoints ++ map (project cam rvec tvec) objectPoints),
   log ++ projectPoints_calls rvec tvec objectPoints).
Proof.
  unfold projectPoints, do_Rodrigues.
  unfold bind at 1. unfold bind at 1. unfold tell, ret.
  rewrite for_range_from_zero with
    (Rep := fun i => imagePoints ++ map (project cam rvec tvec) (firstn i objectPoints))
    (ev := fun i => match nth_error objectPoints i with
              | Some P => [call_spaceToPlane (camera_frame rvec tvec P)]
              | None => []
              end).
  - rewrite firstn_all.
    rewrite (flat_map_seq_nth_error
               (fun P => [call_spaceToPlane (camera_frame rvec tvec P)])).
    unfold projectPoints_calls. rewrite <- app_assoc. simpl.
    now rewrite map_singleton_flat_map.
  - simpl. now rewrite app_nil_r.
  - intros i log' Hi.
    destruct (nth_error_in_range objectPoints i Hi) as [P HP].
    unfold bind. rewrite at_in_range with (a := P) by exact HP.
    unfold do_spaceToPlane, bind, tell, ret. rewrite HP.
    rewrite firstn_snoc with (a := P) by exact HP.
    rewrite map_app, app_assoc. reflexivity.
Qed.

End ProjectPointsFacts.


(** ** [estimateExtrinsics] *)

Section EstimateExtrinsicsFacts.
Context {D F Model : Type}.
Context {AR : Arith D F} {LIB : Library D F} {CM : CameraModel D Model}.

Lemma list_set_at_length {A : Type} (pre post : list A) (x : A) (f : A -> A)
  (i : nat) :
  length pre = i -> list_set (pre ++ x :: post) i f = pre ++ f x :: post.
Proof. intros <-. apply list_set_middle. Qed.

Lemma nth_error_at_length {A : Type} (pre post : list A) (x : A) (i : nat) :
  length pre = i -> nth_error (pre ++ x :: post) i = Some x.
Proof. intros <-. apply nth_error_middle. Qed.

Lemma repeat_pending {A : Type} (x : A) (n i : nat) :
  i < n -> repeat x (n - i) = x :: repeat x (n - S i).
Proof.
  intros H. replace (n - i) with (S (n - S i)) by lia. reflexivity.
Qed.

Lemma estimateExtrinsics_run (cam : Camera Model)
  (objectPoints : list (Point3f F)) (imagePoints : list (Point2f F))
  (rvec tvec : Mat D) (log : list (Call D F)) :
  estimateExtrinsics cam objectPoints imagePoints rvec tvec log =
  (solvePnP objectPoints (map (idealized_point cam) imagePoints) eye33 None
     (rvec, tvec),
   log ++ flat_map (lift_calls cam) imagePoints ++
   [call_solvePnP objectPoints (map (idealized_point cam) imagePoints) eye33 None]).
Proof.
  unfold estimateExtrinsics. unfold bind at 1.
  rewrite repeat_length.
  set (n := length imagePoints).
  rewrite for_range_from_zero with
    (Rep := fun i => map (idealized_point cam) (firstn i imagePoints) ++
                     repeat (mkPoint2f f_zero f_zero) (n - i))
    (ev := fun i => match nth_error imagePoints i with
                    | Some ip => lift_calls cam ip
                    | None => []
                    end).
  - unfold n. rewrite firstn_all, Nat.sub_diag, app_nil_r.
    rewrite (flat_map_seq_nth_error (lift_calls cam)).
    unfold do_solvePnP, bind, tell, lift_res.
    now rewrite <- app_assoc.
  - simpl. now rewrite Nat.sub_0_r.
  - intros i log' Hi.
    destruct (nth_error_in_range imagePoints i Hi) as [ip Hip].
    assert (Hlen : length (map (idealized_point cam) (firstn i imagePoints)) = i).
    { rewrite length_map, length_firstn. unfold n in Hi. lia. }
    unfold bind at 1. rewrite at_in_range with (a := ip) by exact Hip.
    unfold bind at 1. rewrite at_in_range with (a := ip) by exact Hip.
    unfold do_liftProjective, do_divide.
    unfold bind at 1. unfold bind at 1. unfold tell at 1. unfold ret at 1.
    unfold bind at 1. unfold bind at 1. unfold tell at 1. unfold ret at 1.
    rewrite repeat_pending by exact Hi.
    unfold bind at 1.
    rewrite update_at_in_range with (a := mkPoint2f f_zero f_zero)
      by (now apply nth_error_at_length).
    rewrite list_set_at_length by exact Hlen.
    rewrite update_at_in_range with
      (a := mkPoint2f (d2f (w0 (normalized_ray cam ip))) f_zero)
      by (now apply nth_error_at_length).
    rewrite list_set_at_length by exact Hlen.
    rewrite Hip. rewrite firstn_snoc with (a := ip) by exact Hip.
    rewrite map_app, <- !app_assoc. reflexivity.
Qed.

End EstimateExtrinsicsFacts.


(** ** The multi-view [reprojectionError] *)

Section ReprojectionErrorFacts.
Context {D F Model : Type}.
Context {AR : Arith D F} {LIB : Library D F} {CM : CameraModel D Model}.

Lemma nth_error_combine {A B : Type} (l : list A) :
  forall (l' : list B) i a b,
  nth_error l i = Some a -> nth_error l' i = Some b ->
  nth_error (combine l l') i = Some (a, b).
Proof.
  induction l as [|x l IH]; intros [|y l'] [|i] a b Ha Hb;
    simpl in *; try discriminate.
  - now inversion Ha; inversion Hb.
  - now apply IH.
Qed.

Lemma flat_map_nil {A B : Type} (l : list A) :
  flat_map (fun _ : A => @nil B) l = [].
Proof. induction l; simpl; auto. Qed.

Lemma sum_from_zero_snoc (l : list D) (x : D) :
  sum_from_zero (l ++ [x]) = d_add (sum_from_zero l) x.
Proof. unfold sum_from_zero. now rewrite fold_left_app. Qed.

(** The inner loop: the distances of one view, summed from [0.0]. *)
Lemma inner_loop_run (imagePoints : list (list (Point2f F))) (i : nat)
  (observed estimated : list (Point2f F)) (log : list (Call D F)) :
  nth_error imagePoints i = Some observed ->
  length observed <= length estimated ->
  for_range 0 (length observed) (fun j err =>
      imagePoints_i <- at_ imagePoints i ;;
      o <- at_ imagePoints_i j ;;
      e <- at_ estimated j ;;
      ret (d_add err (cv_norm (point2f_sub o e)))) d_zero log =
  (Ok (sum_from_zero
         (map (fun oe => pixel_distance (fst oe) (snd oe))
              (combine observed estimated))), log).
Proof.
  intros Hi Hlen.
  rewrite for_range_from_zero with
    (Rep := fun j => sum_from_zero
              (map (fun oe => pixel_distance (fst oe) (snd oe))
                   (firstn j (combine observed estimated))))
    (ev := fun _ => []).
  - rewrite flat_map_nil, app_nil_r.
    rewrite <- (firstn_all (combine observed estimated)) at 2.
    rewrite length_combine. now rewrite Nat.min_l by exact Hlen.
  - reflexivity.
  - intros j log' Hj.
    destruct (nth_error_in_range observed j Hj) as [o Ho].
    destruct (nth_error_in_range estimated j) as [e He]; [lia|].
    unfold bind at 1. rewrite at_in_range with (a := observed) by exact Hi.
    unfold bind at 1. rewrite at_in_range with (a := o) by exact Ho.
    unfold bind at 1. rewrite at_in_range with (a := e) by exact He.
    unfold ret. rewrite app_nil_r.
    rewrite firstn_snoc with (a := (o, e)) by (now apply nth_error_combine).
    rewrite map_app. cbn [map]. rewrite sum_from_zero_snoc. reflexivity.
Qed.

Lemma total_count_snoc (vs : list (View D F)) (v : View D F) :
  total_count (vs ++ [v]) = total_count vs + view_count v.
Proof.
  unfold total_count. rewrite map_app, list_sum_app. simpl. lia.
Qed.

Lemma total_sum_snoc (cam : Camera Model) (vs : list (View D F)) (v : View D F) :
  total_sum cam (vs ++ [v]) = d_add (total_sum cam vs) (view_sum cam v).
Proof.
  unfold total_sum. rewrite map_app. cbn [map]. now rewrite sum_from_zero_snoc.
Qed.

Lemma reprojectionError_run (cam : Camera Model) (vs : list (View D F))
  (computePerViewErrors : bool) (log : list (Call D F)) :
  Forall (fun v => length (view_objectPoints v) = length (view_imagePoints v)) vs ->
  reprojectionError cam (map (@view_objectPoints D F) vs)
    (map (@view_imagePoints D F) vs) (map (@view_rvec D F) vs)
    (map (@view_tvec D F) vs) computePerViewErrors log =
  (Ok (d_div (total_sum cam vs) (d_of_size (total_count vs)),
       if computePerViewErrors then Some (perViewErrors_of cam vs) else None),
   log ++ flat_map view_calls vs).
Proof.
  intros Hsizes.
  unfold reprojectionError. unfold bind at 1.
  rewrite length_map.
  rewrite for_range_from_zero with
    (Rep := fun k => mkErrState (total_count (firstn k vs))
                       (total_sum cam (firstn k vs))
                       (pending_errors cam vs computePerViewErrors k))
    (ev := fun k => match nth_error vs k with
                    | Some v => view_calls v
                    | None => []
                    end).
  - rewrite (flat_map_seq_nth_error view_calls).
    unfold ret. cbn [pointsSoFar totalErr perViewErrors].
    unfold pending_errors, perViewErrors_of. rewrite firstn_all.
    rewrite Nat.sub_diag. simpl repeat. rewrite app_nil_r. reflexivity.
  - unfold pending_errors, create_column. simpl firstn. simpl map.
    rewrite Nat.sub_0_r. reflexivity.
  - intros k log' Hk.
    destruct (nth_error_in_range vs k Hk) as [v Hv].
    assert (Hsize : length (view_objectPoints v) = length (view_imagePoints v)).
    { rewrite Forall_forall in Hsizes. apply Hsizes.
      eapply nth_error_In. exact Hv. }
    assert (Himg : nth_error (map (@view_imagePoints D F) vs) k
                   = Some (view_imagePoints v))
      by (now rewrite nth_error_map, Hv).
    unfold bind at 1. rewrite at_in_range with (a := view_imagePoints v) by exact Himg.
    unfold bind at 1. rewrite at_in_range with (a := view_objectPoints v)
      by (now rewrite nth_error_map, Hv).
    unfold bind at 1. rewrite at_in_range with (a := view_rvec v)
      by (now rewrite nth_error_map, Hv).
    unfold bind at 1. rewrite at_in_range with (a := view_tvec v)
      by (now rewrite nth_error_map, Hv).
    unfold bind at 1. rewrite projectPoints_run. simpl app at 1.
    unfold bind at 1. rewrite at_in_range with (a := view_imagePoints v) by exact Himg.
    unfold bind at 1.
    rewrite inner_loop_run with (observed := view_imagePoints v);
      [| exact Himg | rewrite length_map; lia].
    unfold ret. rewrite Hv.
    cbn [pointsSoFar totalErr perViewErrors].
    unfold pending_errors.
    rewrite firstn_snoc with (a := v) by exact Hv.
    rewrite total_count_snoc, total_sum_snoc.
    f_equal. f_equal. f_equal.
    destruct computePerViewErrors; [|reflexivity].
    simpl option_map. unfold set_at1. cbn [rows cols data].
    f_equal. f_equal.
    rewrite repeat_pending by exact Hk.
    rewrite list_set_at_length
      by (rewrite length_map, length_firstn; lia).
    rewrite map_app, <- app_assoc. reflexivity.
Qed.

End ReprojectionErrorFacts.


(** ** Views, and sums of real numbers *)

Section ZipFacts.
Context {D F : Type}.

Lemma zip_views_unzip (objectPoints : list (list (Point3f F))) :
  forall (imagePoints : list (list (Point2f F))) (rvecs tvecs : list (Mat D)),
  length imagePoints = length objectPoints ->
  length rvecs = length objectPoints ->
  length tvecs = length objectPoints ->
  map (@view_objectPoints D F) (zip_views objectPoints imagePoints rvecs tvecs)
    = objectPoints /\
  map (@view_imagePoints D F) (zip_views objectPoints imagePoints rvecs tvecs)
    = imagePoints /\
  map (@view_rvec D F) (zip_views objectPoints imagePoints rvecs tvecs) = rvecs /\
  map (@view_tvec D F) (zip_views objectPoints imagePoints rvecs tvecs) = tvecs.
Proof.
  induction objectPoints as [|o os IH];
    intros [|i is'] [|r rs] [|t ts] Hi Hr Ht; simpl in *; try discriminate.
  - repeat split.
  - destruct (IH is' rs ts) as (H1 & H2 & H3 & H4); try lia.
    repeat split; f_equal; assumption.
Qed.

Lemma zip_views_sizes (objectPoints : list (list (Point3f F))) :
  forall (imagePoints : list (list (Point2f F))) (rvecs tvecs : list (Mat D)),
  Forall2 (fun o i => length o = length i) objectPoints imagePoints ->
  Forall (fun v => length (view_objectPoints v) = length (view_imagePoints v))
         (zip_views objectPoints imagePoints rvecs tvecs).
Proof.
  induction objectPoints as [|o os IH];
    intros [|i is'] [|r rs] [|t ts] H; simpl; try constructor;
    inversion H; subst; auto.
Qed.

End ZipFacts.

Section RealFacts.
Open Scope R_scope.

Lemma real_fold_shift (l : list R) :
  forall a, fold_left Rplus l a = a + fold_left Rplus l 0.
Proof.
  induction l as [|x l IH]; intros a; simpl.
  - lra.
  - rewrite IH, (IH (0 + x)). lra.
Qed.

Lemma real_sum_cons (x : R) (l : list R) :
  sum_from_zero (x :: l) = x + sum_from_zero l.
Proof.
  unfold sum_from_zero. simpl. rewrite real_fold_shift. lra.
Qed.

Lemma real_sum_nonneg (l : list R) :
  Forall (fun d => 0 <= d) l -> 0 <= sum_from_zero l.
Proof.
  induction 1 as [|x l Hx Hl IH].
  - unfold sum_from_zero; simpl; lra.
  - rewrite real_sum_cons. lra.
Qed.

Lemma real_sum_zero_iff (l : list R) :
  Forall (fun d => 0 <= d) l ->
  (sum_from_zero l = 0 <-> Forall (fun d => d = 0) l).
Proof.
  induction 1 as [|x l Hx Hl IH].
  - split; [constructor | reflexivity].
  - rewrite real_sum_cons. pose proof (real_sum_nonneg l Hl) as Hs. split.
    + intros H. constructor; [lra | apply IH; lra].
    + intros H. inversion H; subst. apply IH in H3. lra.
Qed.

Lemma real_sum_constant (e : R) (l : list R) :
  Forall (fun d => d = e) l -> sum_from_zero l = INR (length l) * e.
Proof.
  induction 1 as [|x l Hx Hl IH].
  - unfold sum_from_zero; simpl; lra.
  - rewrite real_sum_cons, IH, Hx. cbn [length]. rewrite S_INR. lra.
Qed.

Lemma real_hypot_nonneg (x y : R) : 0 <= sqrt (x * x + y * y).
Proof. apply sqrt_pos. Qed.

Lemma real_hypot_zero_iff (x y : R) : sqrt (x * x + y * y) = 0 <-> x = 0 /\ y = 0.
Proof.
  split.
  - intros H. apply sqrt_eq_0 in H; [nra | nra].
  - intros [-> ->]. replace (0 * 0 + 0 * 0) with 0 by lra. apply sqrt_0.
Qed.

Lemma real_vec2_norm_nonneg (a : Vector2d R) : 0 <= vec2_norm a.
Proof. apply real_hypot_nonneg. Qed.

Lemma real_vec2_distance_zero_iff (a b : Vector2d R) :
  vec2_norm (vec2_sub a b) = 0 <-> a = b.
Proof.
  unfold vec2_norm, vec2_sub. cbn.
  rewrite real_hypot_zero_iff. destruct a as [a0 a1], b as [b0 b1]. cbn.
  split.
  - intros [H0 H1]. f_equal; lra.
  - intros H. inversion H. lra.
Qed.

Lemma real_pixel_distance_nonneg (a b : Point2f R) : 0 <= pixel_distance a b.
Proof. apply real_hypot_nonneg. Qed.

Lemma real_pixel_distance_zero_iff (a b : Point2f R) :
  pixel_distance a b = 0 <-> a = b.
Proof.
  unfold pixel_distance, cv_norm, point2f_sub. cbn.
  rewrite real_hypot_zero_iff. destruct a as [a0 a1], b as [b0 b1]. cbn.
  split.
  - intros [H0 H1]. f_equal; lra.
  - intros H. inversion H. lra.
Qed.

Lemma real_fixed_by_identity (P : Point3f R) : fixed_by_identity P.
Proof.
  unfold fixed_by_identity, vec3_add, mat3_mul_vec, identity3, zero3, to_Vector3d.
  cbn. f_equal; lra.
Qed.

End RealFacts.


(** ** The shared algorithms, in any arithmetic *)

Section SharedAlgorithms.
Context {D F Model : Type}.
Context {AR : Arith D F} {LIB : Library D F} {CM : CameraModel D Model}.

Lemma count_Rodrigues_spaceToPlane (Ps : list (Vector3d D)) :
  count_Rodrigues (map (@call_spaceToPlane D F) Ps) = 0.
Proof. unfold count_Rodrigues. induction Ps; simpl; auto. Qed.

(** C4: [projectPoints] pushes one pixel per object point, in the order of
    the input: the pixel of [P] is [spaceToPlane (R * P + t)] as a
    [cv::Point2f], where [R] is read off the one [cv::Rodrigues]
    conversion of the call.  The calls it makes are that conversion and
    then one [spaceToPlane] per point, none skipped. *)
Theorem projectPoints_one_pixel_per_point (cam : Camera Model)
  (objectPoints : list (Point3f F)) (rvec tvec : Mat D)
  (imagePoints : list (Point2f F)) :
  let pixel := fun P : Point3f F =>
    to_Point2f (spaceToPlane (m_model cam)
      (vec3_add (mat3_mul_vec (rotation_of rvec) (to_Vector3d P))
                (translation_of tvec))) in
  let calls := calls_of (projectPoints cam objectPoints rvec tvec imagePoints) in
  value_of (projectPoints cam objectPoints rvec tvec imagePoints)
    = Ok (imagePoints ++ map pixel objectPoints) /\
  length (map pixel objectPoints) = length objectPoints /\
  (forall i, nth_error (map pixel objectPoints) i
             = option_map pixel (nth_error objectPoints i)) /\
  calls = call_Rodrigues rvec ::
          map (fun P => call_spaceToPlane
                 (vec3_add (mat3_mul_vec (rotation_of rvec) (to_Vector3d P))
                           (translation_of tvec))) objectPoints /\
  count_Rodrigues calls = 1.
Proof.
  cbv zeta. unfold value_of, calls_of. rewrite projectPoints_run.
  cbn [fst snd app]. repeat split.
  - apply length_map.
  - intros i. apply nth_error_map.
  - unfold projectPoints_calls, camera_frame.
    unfold count_Rodrigues. cbn [filter length].
    rewrite <- map_map with (g := @call_spaceToPlane D F).
    f_equal. apply count_Rodrigues_spaceToPlane.
Qed.

(** C9: [projectPoints] appends to the vector it is given and never clears
    it: a vector of [K] elements comes back with [K + N] elements, the
    first [K] unchanged and the [N] pixels after them in input order; its
    size is the size of the input only when it was empty. *)
Theorem projectPoints_appends (cam : Camera Model)
  (objectPoints : list (Point3f F)) (rvec tvec : Mat D)
  (imagePoints : list (Point2f F)) :
  exists out : list (Point2f F),
    value_of (projectPoints cam objectPoints rvec tvec imagePoints) = Ok out /\
    length out = length imagePoints + length objectPoints /\
    firstn (length imagePoints) out = imagePoints /\
    (forall i P, nth_error objectPoints i = Some P ->
       nth_error out (length imagePoints + i) = Some (project cam rvec tvec P)) /\
    (length out = length objectPoints <-> imagePoints = []).
Proof.
  exists (imagePoints ++ map (project cam rvec tvec) objectPoints).
  unfold value_of. rewrite projectPoints_run. cbn [fst].
  split; [reflexivity|]. split; [now rewrite length_app, length_map|].
  split; [now rewrite firstn_app, firstn_all, Nat.sub_diag, app_nil_r|].
  split.
  - intros i P HP.
    rewrite nth_error_app2 by lia.
    replace (length imagePoints + i - length imagePoints) with i by lia.
    now rewrite nth_error_map, HP.
  - rewrite length_app, length_map. split.
    + intros H. destruct imagePoints; [reflexivity | simpl in H; lia].
    + intros ->. reflexivity.
Qed.

(** C5: the single-point [reprojectionError] rotates [P] by the matrix of
    the quaternion, then translates it, projects the result with one call
    of [spaceToPlane], and returns the Euclidean norm of the difference to
    the observed pixel. *)
Theorem reprojectionError_q_is_pixel_distance (cam : Camera Model)
  (P : Vector3d D) (camera_q : Quaterniond D) (camera_t : Vector3d D)
  (observed_p : Vector2d D) :
  let P_cam := vec3_add (mat3_mul_vec (toRotationMatrix camera_q) P) camera_t in
  let p := spaceToPlane (m_model cam) P_cam in
  value_of (reprojectionError_q cam P camera_q camera_t observed_p)
    = Ok (vec2_norm (vec2_sub p observed_p)) /\
  vec2_norm (vec2_sub p observed_p)
    = d_sqrt (d_add (d_mul (d_sub (e0 p) (e0 observed_p))
                           (d_sub (e0 p) (e0 observed_p)))
                    (d_mul (d_sub (e1 p) (e1 observed_p))
                           (d_sub (e1 p) (e1 observed_p)))) /\
  calls_of (reprojectionError_q cam P camera_q camera_t observed_p)
    = [call_spaceToPlane P_cam].
Proof. cbv zeta. repeat split. Qed.

Lemma mask_run_model (cs : list mask_call) :
  forall cam : Camera Model, m_model (mask_run cam cs) = m_model cam.
Proof.
  unfold mask_run. induction cs as [|c cs IH]; intros cam; simpl.
  - reflexivity.
  - rewrite IH. destruct c; reflexivity.
Qed.

Lemma same_model_same_results (cam cam' : Camera Model) :
  m_model cam' = m_model cam ->
  estimateExtrinsics cam' = estimateExtrinsics cam /\
  projectPoints cam' = projectPoints cam /\
  reprojectionError cam' = reprojectionError cam /\
  reprojectionError_q cam' = reprojectionError_q cam /\
  reprojectionDist cam' = reprojectionDist cam.
Proof.
  destruct cam as [mask_a model_a], cam' as [mask_b model_b]. simpl.
  intros ->. repeat split.
Qed.

(** C8: whatever is done to the mask (set, replaced or cleared, any number
    of times), [estimateExtrinsics], [projectPoints], both
    [reprojectionError] overloads and [reprojectionDist] return what they
    returned before, on every input, and make the same calls. *)
Theorem mask_is_never_read (cam : Camera Model) (cs : list mask_call) :
  (forall objectPoints imagePoints rvec tvec,
     estimateExtrinsics (mask_run cam cs) objectPoints imagePoints rvec tvec
     = estimateExtrinsics cam objectPoints imagePoints rvec tvec) /\
  (forall objectPoints rvec tvec imagePoints,
     projectPoints (mask_run cam cs) objectPoints rvec tvec imagePoints
     = projectPoints cam objectPoints rvec tvec imagePoints) /\
  (forall objectPoints imagePoints rvecs tvecs computePerViewErrors,
     reprojectionError (mask_run cam cs) objectPoints imagePoints rvecs tvecs
       computePerViewErrors
     = reprojectionError cam objectPoints imagePoints rvecs tvecs
         computePerViewErrors) /\
  (forall P camera_q camera_t observed_p,
     reprojectionError_q (mask_run cam cs) P camera_q camera_t observed_p
     = reprojectionError_q cam P camera_q camera_t observed_p) /\
  (forall P1 P2,
     reprojectionDist (mask_run cam cs) P1 P2 = reprojectionDist cam P1 P2).
Proof.
  destruct (same_model_same_results cam (mask_run cam cs) (mask_run_model cs cam))
    as (H1 & H2 & H3 & H4 & H5).
  rewrite H1, H2, H3, H4, H5. repeat split.
Qed.

(** C10: [estimateExtrinsics] divides every lifted ray by its third
    component, unguarded: one division per image point, whatever the
    divisor.  When [liftProjective] gives a ray with a nonzero third
    component for every image point, every one of these divisions has a
    nonzero divisor: none divides by zero. *)
Theorem estimateExtrinsics_divisions_defined (cam : Camera Model)
  (objectPoints : list (Point3f F)) (imagePoints : list (Point2f F))
  (rvec tvec : Mat D) :
  Forall (fun ip => d_is_zero (w2 (liftProjective (m_model cam) (to_Vector2d ip)))
                    = false) imagePoints ->
  calls_of (estimateExtrinsics cam objectPoints imagePoints rvec tvec)
    = flat_map (fun ip =>
        let ray := liftProjective (m_model cam) (to_Vector2d ip) in
        [call_liftProjective (to_Vector2d ip); call_divide ray (w2 ray)])
        imagePoints ++
      [call_solvePnP objectPoints (map (idealized_point cam) imagePoints)
         eye33 None] /\
  Forall divide_defined
    (calls_of (estimateExtrinsics cam objectPoints imagePoints rvec tvec)).
Proof.
  intros Hnz. unfold calls_of. rewrite estimateExtrinsics_run. cbn [snd app].
  split; [reflexivity|].
  apply Forall_app. split; [|repeat constructor].
  induction Hnz as [|ip ips Hip _ IH]; simpl.
  - constructor.
  - constructor; [exact I|]. constructor; [exact Hip | exact IH].
Qed.

End SharedAlgorithms.

Section MoreGeneric.
Context {D F Model : Type}.
Context {AR : Arith D F} {LIB : Library D F} {CM : CameraModel D Model}.

Lemma eye33_entries (i j : nat) :
  i < 3 -> j < 3 ->
  at2 (@eye33 D F AR) i j = if Nat.eqb i j then d_one else d_zero.
Proof.
  intros Hi Hj.
  destruct i as [|[|[|i]]]; destruct j as [|[|[|j]]]; try lia; reflexivity.
Qed.

Lemma rotation_of_identity (rvec : Mat D) :
  Rodrigues rvec = eye33 -> rotation_of rvec = identity3.
Proof. unfold rotation_of. intros ->. reflexivity. Qed.

Lemma project_identity_pose (cam : Camera Model) (rvec tvec : Mat D)
  (P : Point3f F) :
  Rodrigues rvec = eye33 -> translation_of tvec = zero3 ->
  fixed_by_identity P ->
  project cam rvec tvec P = to_Point2f (spaceToPlane (m_model cam) (to_Vector3d P)).
Proof.
  intros HR Ht HP. unfold project, camera_frame.
  rewrite rotation_of_identity by exact HR. rewrite Ht.
  unfold fixed_by_identity in HP. now rewrite HP.
Qed.

Lemma projectPoints_identity_pose_generic (cam : Camera Model)
  (objectPoints : list (Point3f F)) (rvec tvec : Mat D) :
  Rodrigues rvec = eye33 -> translation_of tvec = zero3 ->
  Forall fixed_by_identity objectPoints ->
  value_of (projectPoints cam objectPoints rvec tvec [])
  = Ok (map (fun P => to_Point2f (spaceToPlane (m_model cam) (to_Vector3d P)))
            objectPoints).
Proof.
  intros HR Ht Hfix. unfold value_of. rewrite projectPoints_run. cbn [fst app].
  f_equal. apply map_ext_in. intros P HP.
  apply project_identity_pose; try assumption.
  rewrite Forall_forall in Hfix. now apply Hfix.
Qed.

Lemma constant_list {A : Type} (e : A) (l : list A) :
  Forall (fun d => d = e) l -> l = repeat e (length l).
Proof. induction 1; simpl; congruence. Qed.

Lemma view_distances_length (cam : Camera Model) (v : View D F) :
  length (view_objectPoints v) = length (view_imagePoints v) ->
  length (view_distances cam v) = view_count v.
Proof.
  intros H. unfold view_distances, view_count.
  rewrite length_map, length_combine, length_map. lia.
Qed.

Lemma reprojectionError_aligned (cam : Camera Model)
  (objectPoints : list (list (Point3f F)))
  (imagePoints : list (list (Point2f F))) (rvecs tvecs : list (Mat D))
  (computePerViewErrors : bool) :
  length imagePoints = length objectPoints ->
  length rvecs = length objectPoints ->
  length tvecs = length objectPoints ->
  Forall2 (fun o i => length o = length i) objectPoints imagePoints ->
  let vs := zip_views objectPoints imagePoints rvecs tvecs in
  value_of (reprojectionError cam objectPoints imagePoints rvecs tvecs
              computePerViewErrors)
  = Ok (d_div (total_sum cam vs) (d_of_size (total_count vs)),
        if computePerViewErrors then Some (perViewErrors_of cam vs) else None).
Proof.
  intros Hi Hr Ht Hsizes vs.
  destruct (zip_views_unzip objectPoints imagePoints rvecs tvecs Hi Hr Ht)
    as (Ho & Him & Hrv & Htv).
  fold vs in Ho, Him, Hrv, Htv.
  rewrite <- Ho at 1. rewrite <- Him at 1. rewrite <- Hrv at 1. rewrite <- Htv at 1.
  unfold value_of. rewrite reprojectionError_run.
  - reflexivity.
  - now apply zip_views_sizes.
Qed.

Lemma reprojectionError_two_views (cam : Camera Model)
  (v1 v2 : View D F) (e : D) (computePerViewErrors : bool) :
  length (view_objectPoints v1) = length (view_imagePoints v1) ->
  length (view_objectPoints v2) = length (view_imagePoints v2) ->
  view_count v1 = 3 -> view_count v2 = 5 ->
  Forall (fun d => d = e) (view_distances cam v1) ->
  Forall (fun d => d = e) (view_distances cam v2) ->
  let s3 := d_add (d_add (d_add d_zero e) e) e in
  let s5 := d_add (d_add (d_add (d_add (d_add d_zero e) e) e) e) e in
  value_of (reprojectionError cam
              [view_objectPoints v1; view_objectPoints v2]
              [view_imagePoints v1; view_imagePoints v2]
              [view_rvec v1; view_rvec v2] [view_tvec v1; view_tvec v2]
              computePerViewErrors)
  = Ok (d_div (d_add (d_add d_zero s3) s5) (d_of_size 8),
        if computePerViewErrors
        then Some {| rows := 2; cols := 1;
                     data := [d_div s3 (d_of_size 3); d_div s5 (d_of_size 5)] |}
        else None).
Proof.
  intros Hs1 Hs2 Hc1 Hc2 He1 He2 s3 s5.
  unfold value_of.
  change [view_objectPoints v1; view_objectPoints v2]
    with (map (@view_objectPoints D F) [v1; v2]).
  change [view_imagePoints v1; view_imagePoints v2]
    with (map (@view_imagePoints D F) [v1; v2]).
  change [view_rvec v1; view_rvec v2] with (map (@view_rvec D F) [v1; v2]).
  change [view_tvec v1; view_tvec v2] with (map (@view_tvec D F) [v1; v2]).
  rewrite reprojectionError_run by (repeat constructor; assumption).
  cbn [fst].
  assert (H1 : view_sum cam v1 = s3).
  { unfold view_sum. rewrite (constant_list e _ He1).
    rewrite view_distances_length by exact Hs1. rewrite Hc1. reflexivity. }
  assert (H2 : view_sum cam v2 = s5).
  { unfold view_sum. rewrite (constant_list e _ He2).
    rewrite view_distances_length by exact Hs2. rewrite Hc2. reflexivity. }
  unfold total_sum, total_count, perViewErrors_of, view_error.
  cbn [map list_sum sum_from_zero fold_left length].
  rewrite H1, H2, Hc1, Hc2. reflexivity.
Qed.

End MoreGeneric.


(** ** The shared algorithms, in exact arithmetic *)

Lemma Forall_equiv {A : Type} (P Q : A -> Prop) (l : list A) :
  (forall a, P a <-> Q a) -> (Forall P l <-> Forall Q l).
Proof.
  intros H. split; apply Forall_impl; intros a; apply H.
Qed.

Section RealAlgorithms.
Context {Model : Type} {LIB : Library R R} {CM : CameraModel R Model}.
Open Scope R_scope.

Lemma real_normalized_forward (cam : Camera Model) (ip : Point2f R) :
  w2 (lifted_ray cam ip) <> 0 -> w2 (normalized_ray cam ip) = 1.
Proof.
  intros H. unfold normalized_ray, vec3_div. cbn. now field.
Qed.

Lemma real_view_distances_nonneg (cam : Camera Model) (v : View R R) :
  Forall (fun d => 0 <= d) (view_distances cam v).
Proof.
  unfold view_distances. apply Forall_map, Forall_forall.
  intros oe _. apply real_pixel_distance_nonneg.
Qed.

Lemma real_view_sum_nonneg (cam : Camera Model) (v : View R R) :
  0 <= view_sum cam v.
Proof. apply real_sum_nonneg, real_view_distances_nonneg. Qed.

Lemma real_view_sum_zero_iff (cam : Camera Model) (v : View R R) :
  view_sum cam v = 0 <-> view_coincides cam v.
Proof.
  unfold view_sum.
  rewrite real_sum_zero_iff by apply real_view_distances_nonneg.
  unfold view_distances, view_coincides. rewrite Forall_map.
  apply Forall_equiv. intros oe. apply real_pixel_distance_zero_iff.
Qed.

Lemma real_total_sum_nonneg (cam : Camera Model) (vs : list (View R R)) :
  0 <= total_sum cam vs.
Proof.
  apply real_sum_nonneg, Forall_map, Forall_forall.
  intros v _. apply real_view_sum_nonneg.
Qed.

Lemma real_total_sum_zero_iff (cam : Camera Model) (vs : list (View R R)) :
  total_sum cam vs = 0 <-> Forall (view_coincides cam) vs.
Proof.
  unfold total_sum. rewrite real_sum_zero_iff.
  - rewrite Forall_map. apply Forall_equiv. intros v.
    apply real_view_sum_zero_iff.
  - apply Forall_map, Forall_forall. intros v _. apply real_view_sum_nonneg.
Qed.

Lemma real_mean_nonneg (s : R) (n : nat) :
  0 <= s -> (0 < n)%nat -> 0 <= s / INR n /\ (s / INR n = 0 <-> s = 0).
Proof.
  intros Hs Hn. assert (Hpos : 0 < INR n) by (now apply lt_0_INR).
  split.
  - apply Rmult_le_pos; [exact Hs|]. left. now apply Rinv_0_lt_compat.
  - split.
    + intros H. apply Rmult_integral in H. destruct H as [H|H]; [exact H|].
      pose proof (Rinv_0_lt_compat _ Hpos). lra.
    + intros ->. unfold Rdiv. apply Rmult_0_l.
Qed.

Lemma real_two_views_mean (e : R) :
  (0 + (0 + e + e + e) + (0 + e + e + e + e + e)) / INR 8 = e.
Proof.
  replace (INR 8) with 8 by (simpl; lra). lra.
Qed.

End RealAlgorithms.


(** ** The shared algorithms, in machine arithmetic *)

(** C2: [estimateExtrinsics] lifts every image point with [liftProjective],
    divides the ray by its third component, keeps the first two
    components of the quotient as a [cv::Point2f], and hands these points,
    with the object points as they are, the 3x3 identity as camera matrix
    and no distortion coefficients, to [cv::solvePnP]; what it leaves in
    [rvec] and [tvec] is what the solver leaves there.  The third
    component of the quotient is that of the ray divided by itself: 1 in
    exact arithmetic when it is not zero.  None of this needs the sizes
    of the two sequences to be equal or at least 4. *)
Theorem estimateExtrinsics_solves_idealized_pnp :
  (forall (D F Model : Type) (AR : Arith D F) (LIB : Library D F)
          (CM : CameraModel D Model) (cam : Camera Model)
          (objectPoints : list (Point3f F)) (imagePoints : list (Point2f F))
          (rvec tvec : Mat D),
     let ray := fun ip : Point2f F =>
       liftProjective (m_model cam)
         (mkVector2d (f2d (p2_x ip)) (f2d (p2_y ip))) in
     let quotient := fun ip : Point2f F =>
       mkVector3d (d_div (w0 (ray ip)) (w2 (ray ip)))
                  (d_div (w1 (ray ip)) (w2 (ray ip)))
                  (d_div (w2 (ray ip)) (w2 (ray ip))) in
     let Ms := map (fun ip => mkPoint2f (d2f (w0 (quotient ip)))
                                        (d2f (w1 (quotient ip)))) imagePoints in
     value_of (estimateExtrinsics cam objectPoints imagePoints rvec tvec)
       = solvePnP objectPoints Ms eye33 None (rvec, tvec) /\
     calls_of (estimateExtrinsics cam objectPoints imagePoints rvec tvec)
       = flat_map (fun ip => [call_liftProjective (to_Vector2d ip);
                              call_divide (ray ip) (w2 (ray ip))]) imagePoints ++
         [call_solvePnP objectPoints Ms eye33 None] /\
     (forall i j, i < 3 -> j < 3 ->
        at2 (@eye33 D F AR) i j = if Nat.eqb i j then d_one else d_zero)) /\
  (forall (Model : Type) (CM : CameraModel R Model) (cam : Camera Model)
          (ip : Point2f R),
     w2 (lifted_ray cam ip) <> 0%R -> w2 (normalized_ray cam ip) = 1%R).
Proof.
  split.
  - intros D F Model AR LIB CM cam objectPoints imagePoints rvec tvec ray quotient Ms.
    unfold value_of, calls_of. rewrite estimateExtrinsics_run. cbn [fst snd app].
    split; [reflexivity|]. split; [reflexivity|].
    intros i j. apply eye33_entries.
  - intros Model CM cam ip. apply real_normalized_forward.
Qed.

Module Machine.
Import PrimFloat Sample.
#[local] Existing Instance identity_Library.
#[local] Existing Instance UnitPinhole_model.

(** C3 fails as stated.  Eight observations, in views of 3 and 5, each
    2 pixels right of and 7 pixels below its projection: every distance is
    the binary64 square root of 53, and the result is the next binary64
    number above it. *)
Lemma reprojectionError_mean_rounds :
  view_distances pinhole_camera (view_of 3 (pixel 2 7)) = repeat sqrt_53 3 /\
  view_distances pinhole_camera (view_of 5 (pixel 2 7)) = repeat sqrt_53 5 /\
  value_of (reprojectionError pinhole_camera
             [repeat on_axis 3; repeat on_axis 5]
             [repeat (pixel 2 7) 3; repeat (pixel 2 7) 5]
             [no_motion; no_motion] [no_motion; no_motion] false)
  = Ok (sqrt_53_up, None) /\
  PrimFloat.eqb sqrt_53_up sqrt_53 = false.
Proof. vm_compute. repeat split. Qed.

(** C6 fails as stated.  Without a view the multi-view
    [reprojectionError] is 0.0 / 0, which is not a number and not [>= 0];
    and two equal points that the unit pinhole projects to the same pixel
    at infinity have a [reprojectionDist] that is not a number, not 0. *)
Lemma reprojection_error_not_a_number :
  value_of (reprojectionError pinhole_camera [] [] [] [] false)
    = Ok (PrimFloat.nan, None) /\
  PrimFloat.leb 0 PrimFloat.nan = false /\
  spaceToPlane unit_pinhole (mkVector3d 1%float 1%float 0%float)
    = mkVector2d PrimFloat.infinity PrimFloat.infinity /\
  value_of (reprojectionDist pinhole_camera (mkVector3d 1%float 1%float 0%float)
              (mkVector3d 1%float 1%float 0%float))
    = Ok PrimFloat.nan /\
  PrimFloat.eqb PrimFloat.nan 0 = false.
Proof. vm_compute. repeat split. Qed.

(** The aggregate of eight distances 2.0, in views of 3 and 5. *)
Lemma binary64_mean_of_twos :
  Forall (fun d => d = 2%float)
         (view_distances pinhole_camera (view_of 3 (pixel 2 0)) ++
          view_distances pinhole_camera (view_of 5 (pixel 2 0))) /\
  value_of (reprojectionError pinhole_camera
              [repeat on_axis 3; repeat on_axis 5]
              [repeat (pixel 2 0) 3; repeat (pixel 2 0) 5]
              [no_motion; no_motion] [no_motion; no_motion] false)
  = Ok (2%float, None).
Proof. split; [vm_compute; repeat constructor | vm_compute; reflexivity]. Qed.

(** Views of 1 and 2 points with distances 0 and 3, 3: the aggregate is
    6 / 3, the mean of the per-view means is (0 + 3) / 2. *)
Lemma binary64_not_mean_of_means :
  value_of (reprojectionError pinhole_camera
              [repeat on_axis 1; repeat on_axis 2]
              [repeat (pixel 0 0) 1; repeat (pixel 3 0) 2]
              [no_motion; no_motion] [no_motion; no_motion] false)
  = Ok (2%float, None) /\
  mean_of_means pinhole_camera [view_of 1 (pixel 0 0); view_of 2 (pixel 3 0)]
  = 1.5%float.
Proof. split; vm_compute; reflexivity. Qed.

(** On the board the identity pose is exact, and the rays of its pixels
    have third component 1. *)
Lemma board_fixed_by_identity : Forall fixed_by_identity board.
Proof. repeat constructor. Qed.

Lemma corners_lift_forward :
  Forall (fun ip => d_is_zero (w2 (liftProjective (m_model pinhole_camera)
                                     (to_Vector2d ip))) = false) corners.
Proof. repeat constructor. Qed.

(** C3, as amended: on aligned views the multi-view [reprojectionError]
    returns the distances of all views, summed view by view, divided by
    the number of points of all views, and the per-view error of a view is
    the sum of its distances divided by the number of its points.  With
    two views of 3 and 5 points whose distances all are [e], the result is
    [((e + e + e) + (e + e + e + e + e)) / 8] as the arithmetic computes
    it, every sum started from zero: this is [e] in exact arithmetic, and
    in binary64 for [e = 2.0].  The result is not the mean of the per-view
    means: views of 1 and 2 points with distances 0 and 3, 3 give 2, and
    the mean of their means is 1.5. *)
Theorem reprojectionError_weighs_views_by_points :
  (forall (D F Model : Type) (AR : Arith D F) (LIB : Library D F)
          (CM : CameraModel D Model) (cam : Camera Model)
          (objectPoints : list (list (Point3f F)))
          (imagePoints : list (list (Point2f F))) (rvecs tvecs : list (Mat D))
          (computePerViewErrors : bool),
     length imagePoints = length objectPoints ->
     length rvecs = length objectPoints ->
     length tvecs = length objectPoints ->
     Forall2 (fun o i => length o = length i) objectPoints imagePoints ->
     let vs := zip_views objectPoints imagePoints rvecs tvecs in
     value_of (reprojectionError cam objectPoints imagePoints rvecs tvecs
                 computePerViewErrors)
     = Ok (d_div (sum_from_zero (map (view_sum cam) vs))
                 (d_of_size (list_sum (map view_count vs))),
           if computePerViewErrors
           then Some {| rows := length vs; cols := 1;
                        data := map (fun v => d_div (view_sum cam v)
                                                (d_of_size (view_count v))) vs |}
           else None)) /\
  (forall (D F Model : Type) (AR : Arith D F) (LIB : Library D F)
          (CM : CameraModel D Model) (cam : Camera Model)
          (v1 v2 : View D F) (e : D),
     length (view_objectPoints v1) = length (view_imagePoints v1) ->
     length (view_objectPoints v2) = length (view_imagePoints v2) ->
     view_count v1 = 3 -> view_count v2 = 5 ->
     Forall (fun d => d = e) (view_distances cam v1) ->
     Forall (fun d => d = e) (view_distances cam v2) ->
     let s3 := d_add (d_add (d_add d_zero e) e) e in
     let s5 := d_add (d_add (d_add (d_add (d_add d_zero e) e) e) e) e in
     value_of (reprojectionError cam
                 [view_objectPoints v1; view_objectPoints v2]
                 [view_imagePoints v1; view_imagePoints v2]
                 [view_rvec v1; view_rvec v2] [view_tvec v1; view_tvec v2] false)
     = Ok (d_div (d_add (d_add d_zero s3) s5) (d_of_size 8), None)) /\
  (forall (Model : Type) (LIB : Library R R) (CM : CameraModel R Model)
          (cam : Camera Model) (v1 v2 : View R R) (e : R),
     length (view_objectPoints v1) = length (view_imagePoints v1) ->
     length (view_objectPoints v2) = length (view_imagePoints v2) ->
     view_count v1 = 3 -> view_count v2 = 5 ->
     Forall (fun d => d = e) (view_distances cam v1) ->
     Forall (fun d => d = e) (view_distances cam v2) ->
     value_of (reprojectionError cam
                 [view_objectPoints v1; view_objectPoints v2]
                 [view_imagePoints v1; view_imagePoints v2]
                 [view_rvec v1; view_rvec v2] [view_tvec v1; view_tvec v2] false)
     = Ok (e, None)) /\
  (Forall (fun d => d = 2%float)
          (view_distances pinhole_camera (view_of 3 (pixel 2 0)) ++
           view_distances pinhole_camera (view_of 5 (pixel 2 0))) /\
   value_of (reprojectionError pinhole_camera
               [repeat on_axis 3; repeat on_axis 5]
               [repeat (pixel 2 0) 3; repeat (pixel 2 0) 5]
               [no_motion; no_motion] [no_motion; no_motion] false)
   = Ok (2%float, None)) /\
  (value_of (reprojectionError pinhole_camera
               [repeat on_axis 1; repeat on_axis 2]
               [repeat (pixel 0 0) 1; repeat (pixel 3 0) 2]
               [no_motion; no_motion] [no_motion; no_motion] false)
   = Ok (2%float, None) /\
   mean_of_means pinhole_camera [view_of 1 (pixel 0 0); view_of 2 (pixel 3 0)]
   = 1.5%float).
Proof.
  split; [|split; [|split; [|split]]].
  - intros D F Model AR LIB CM cam objectPoints imagePoints rvecs tvecs b
           Hi Hr Ht Hs vs.
    now apply reprojectionError_aligned.
  - intros D F Model AR LIB CM cam v1 v2 e Hs1 Hs2 Hc1 Hc2 He1 He2 s3 s5.
    now apply (reprojectionError_two_views cam v1 v2 e false).
  - intros Model LIB CM cam v1 v2 e Hs1 Hs2 Hc1 Hc2 He1 He2.
    rewrite (reprojectionError_two_views cam v1 v2 e false) by assumption.
    cbv zeta. f_equal. f_equal. apply real_two_views_mean.
  - exact binary64_mean_of_twos.
  - exact binary64_not_mean_of_means.
Qed.

(** The first part of the theorem at the two views of the sample, with
    the per-view errors asked for. *)
Lemma reprojectionError_weighs_views_by_points_witness :
  value_of (reprojectionError pinhole_camera
              [repeat on_axis 3; repeat on_axis 5]
              [repeat (pixel 2 0) 3; repeat (pixel 2 0) 5]
              [no_motion; no_motion] [no_motion; no_motion] true)
  = Ok (2%float, Some {| rows := 2; cols := 1; data := [2%float; 2%float] |}).
Proof.
  assert (H := proj1 reprojectionError_weighs_views_by_points
                 _ _ _ _ _ _ pinhole_camera
                 [repeat on_axis 3; repeat on_axis 5]
                 [repeat (pixel 2 0) 3; repeat (pixel 2 0) 5]
                 [no_motion; no_motion] [no_motion; no_motion] true).
  cbv zeta in H. specialize (H eq_refl eq_refl eq_refl).
  rewrite H by (repeat constructor).
  vm_compute. reflexivity.
Defined.

(** The rays of the unit pinhole have third component 1: no division of
    [estimateExtrinsics] on the board divides by zero. *)
Lemma estimateExtrinsics_divisions_defined_witness :
  Forall divide_defined
    (calls_of (estimateExtrinsics pinhole_camera board corners no_motion no_motion)).
Proof.
  apply (estimateExtrinsics_divisions_defined pinhole_camera board corners
           no_motion no_motion).
  exact corners_lift_forward.
Defined.

End Machine.


(* ================================================================== *)
(** * Part IX.  Further facts *)
(* ================================================================== *)

(** ** Writes through the references of the parameter set *)

Module ParamsWritesFacts.
Import Params ParamsWrites.

Lemma run_cons (p : Parameters) (c : call) (cs : list call) :
  run p (c :: cs) = run (step p c) cs.
Proof. reflexivity. Qed.

(** X1: after any sequence of calls on a [Parameters] object, each of
    [modelType()], [cameraName()], [imageWidth()] and [imageHeight()]
    returns the value last written through the reference that its
    non-[const] overload returns, or the value the object had before the
    calls when nothing was written to that member: a write to one member
    changes no other, and reads change nothing. *)
Theorem accessors_return_last_write (p : Parameters) (cs : list call) :
  modelType (run p cs) = last_modelType cs (modelType p) /\
  cameraName (run p cs) = last_cameraName cs (cameraName p) /\
  imageWidth (run p cs) = last_imageWidth cs (imageWidth p) /\
  imageHeight (run p cs) = last_imageHeight cs (imageHeight p).
Proof.
  revert p. induction cs as [|c cs IH]; intros p.
  - repeat split.
  - rewrite run_cons. destruct (IH (step p c)) as (H1 & H2 & H3 & H4).
    rewrite H1, H2, H3, H4. destruct c; repeat split.
Qed.

End ParamsWritesFacts.

Section SizedFacts.
Context {D F : Type}.

Lemma skipn_at (A : Type) (l : list A) :
  forall k a, nth_error l k = Some a -> skipn k l = a :: skipn (S k) l.
Proof.
  induction l as [|x l IH]; intros [|k] a H; simpl in *; try discriminate.
  - now inversion H.
  - now apply IH.
Qed.

Lemma skipn_past (A : Type) (l : list A) :
  forall k, nth_error l k = None -> skipn k l = [].
Proof.
  induction l as [|x l IH]; intros [|k] H; simpl in *; try discriminate;
    auto.
Qed.

(** The test [sized] decides [in_range]. *)
Lemma sized_spec (objectPoints : list (list (Point3f F))) :
  forall (imagePoints : list (list (Point2f F))) (rvecs tvecs : list (Mat D)),
  sized objectPoints imagePoints rvecs tvecs = true <->
  in_range objectPoints imagePoints rvecs tvecs.
Proof.
  unfold in_range.
  induction objectPoints as [|o os IH]; intros imagePoints rvecs tvecs; simpl.
  - split; [intros _|reflexivity]. repeat split; try lia.
    intros [|k] ? ? H; discriminate.
  - destruct imagePoints as [|i is'], rvecs as [|r rs], tvecs as [|t ts];
      simpl; try (split; [discriminate | intros (? & ? & ? & _); lia]).
    rewrite andb_true_iff, Nat.leb_le, IH. split.
    + intros (Hle & H1 & H2 & H3 & H4). repeat split; try lia.
      intros [|k] o' i' Ho Hi; simpl in *.
      * inversion Ho; inversion Hi; subst; exact Hle.
      * eapply H4; eassumption.
    + intros (H1 & H2 & H3 & H4). split; [|repeat split; try lia].
      * apply (H4 0 o i); reflexivity.
      * intros k o' i' Ho Hi. apply (H4 (S k)); assumption.
Qed.

Lemma sized_views (objectPoints : list (list (Point3f F))) :
  forall (imagePoints : list (list (Point2f F))) (rvecs tvecs : list (Mat D)),
  sized objectPoints imagePoints rvecs tvecs = true ->
  length (zip_views objectPoints imagePoints rvecs tvecs) = length objectPoints /\
  forall k, k < length objectPoints ->
    exists v, nth_error (zip_views objectPoints imagePoints rvecs tvecs) k = Some v /\
      nth_error objectPoints k = Some (view_objectPoints v) /\
      nth_error imagePoints k = Some (view_imagePoints v) /\
      nth_error rvecs k = Some (view_rvec v) /\
      nth_error tvecs k = Some (view_tvec v) /\
      length (view_imagePoints v) <= length (view_objectPoints v).
Proof.
  induction objectPoints as [|o os IH]; intros imagePoints rvecs tvecs H; simpl in *.
  - split; [reflexivity | intros k Hk; lia].
  - destruct imagePoints as [|i is'], rvecs as [|r rs], tvecs as [|t ts];
      try discriminate.
    apply andb_true_iff in H as [Hle H]. apply Nat.leb_le in Hle.
    destruct (IH _ _ _ H) as [Hlen Hnth]. simpl. split; [now rewrite Hlen|].
    intros [|k] Hk.
    + exists (mkView o i r t). simpl. repeat split. exact Hle.
    + apply Hnth. lia.
Qed.

End SizedFacts.


(** ** The multi-view [reprojectionError] on sizes of any kind *)

Section OuterLoopFacts.
Context {D F Model : Type}.
Context {AR : Arith D F} {LIB : Library D F} {CM : CameraModel D Model}.

Lemma reprojectionError_loops (cam : Camera Model)
  (objectPoints : list (list (Point3f F)))
  (imagePoints : list (list (Point2f F))) (rvecs tvecs : list (Mat D))
  (computePerViewErrors : bool) :
  reprojectionError cam objectPoints imagePoints rvecs tvecs computePerViewErrors
  = (st <- for_range 0 (length objectPoints)
             (outer_body cam objectPoints imagePoints rvecs tvecs
                computePerViewErrors)
             (mkErrState 0 d_zero
                (if computePerViewErrors
                 then Some (create_column (length objectPoints)) else None)) ;;
     ret (d_div (totalErr st) (d_of_size (pointsSoFar st)), perViewErrors st)).
Proof. reflexivity. Qed.

(** A view with its image points, rotation and translation in place and
    no more image points than object points: one round of the outer loop. *)
Lemma outer_body_in_range (cam : Camera Model)
  (objectPoints : list (list (Point3f F)))
  (imagePoints : list (list (Point2f F))) (rvecs tvecs : list (Mat D))
  (computePerViewErrors : bool) (k : nat) (v : View D F) (st : ErrState)
  (log : list (Call D F)) :
  nth_error objectPoints k = Some (view_objectPoints v) ->
  nth_error imagePoints k = Some (view_imagePoints v) ->
  nth_error rvecs k = Some (view_rvec v) ->
  nth_error tvecs k = Some (view_tvec v) ->
  length (view_imagePoints v) <= length (view_objectPoints v) ->
  outer_body cam objectPoints imagePoints rvecs tvecs computePerViewErrors k st log
  = (Ok (mkErrState (pointsSoFar st + view_count v)
           (d_add (totalErr st) (view_sum cam v))
           (if computePerViewErrors
            then option_map (fun m => set_at1 m k (view_error cam v))
                            (perViewErrors st)
            else perViewErrors st)),
     log ++ view_calls v).
Proof.
  intros Ho Hi Hr Ht Hle. unfold outer_body.
  unfold bind at 1. rewrite at_in_range with (a := view_imagePoints v) by exact Hi.
  unfold bind at 1. rewrite at_in_range with (a := view_objectPoints v) by exact Ho.
  unfold bind at 1. rewrite at_in_range with (a := view_rvec v) by exact Hr.
  unfold bind at 1. rewrite at_in_range with (a := view_tvec v) by exact Ht.
  unfold bind at 1. rewrite projectPoints_run. simpl app at 1.
  unfold bind at 1. rewrite at_in_range with (a := view_imagePoints v) by exact Hi.
  unfold bind at 1.
  unfold inner_body.
  rewrite inner_loop_run with (observed := view_imagePoints v);
    [| exact Hi | rewrite length_map; exact Hle].
  reflexivity.
Qed.

(** More image points than estimated points: the inner loop runs off the
    end of [estImagePoints]. *)
Lemma inner_loop_out_of_range (imagePoints : list (list (Point2f F))) (i : nat)
  (observed estimated : list (Point2f F)) :
  nth_error imagePoints i = Some observed ->
  length estimated < length observed ->
  forall count first err log,
    first + count = length observed ->
    first <= length estimated ->
    fst (for_range first count (inner_body imagePoints i estimated) err log)
    = Throw out_of_range.
Proof.
  intros Hi Hlt. induction count as [|count IH]; intros first err log Hn Hfirst.
  - lia.
  - simpl. unfold bind at 1. unfold inner_body at 1.
    unfold bind at 1. rewrite at_in_range with (a := observed) by exact Hi.
    destruct (nth_error_in_range observed first) as [o Ho]; [lia|].
    unfold bind at 1. rewrite at_in_range with (a := o) by exact Ho.
    unfold bind at 1. unfold at_ at 1.
    destruct (nth_error estimated first) as [e|] eqn:He.
    + unfold ret at 1. unfold ret at 1. apply IH; [lia|].
      assert (first < length estimated) by (apply nth_error_Some; congruence).
      lia.
    + reflexivity.
Qed.

(** A view that lacks its image points, its rotation or its translation,
    or has more image points than object points: the round throws. *)
Lemma outer_body_out_of_range (cam : Camera Model)
  (objectPoints : list (list (Point3f F)))
  (imagePoints : list (list (Point2f F))) (rvecs tvecs : list (Mat D))
  (computePerViewErrors : bool) (k : nat) (o : list (Point3f F))
  (st : ErrState) (log : list (Call D F)) :
  nth_error objectPoints k = Some o ->
  sized [o] (firstn 1 (skipn k imagePoints)) (firstn 1 (skipn k rvecs))
        (firstn 1 (skipn k tvecs)) = false ->
  fst (outer_body cam objectPoints imagePoints rvecs tvecs computePerViewErrors
         k st log) = Throw out_of_range.
Proof.
  intros Ho Hbad.
  unfold outer_body. unfold bind at 1. unfold at_ at 1.
  destruct (nth_error imagePoints k) as [i|] eqn:Hi; [|reflexivity].
  unfold ret at 1.
  unfold bind at 1. rewrite at_in_range with (a := o) by exact Ho.
  unfold bind at 1. unfold at_ at 1.
  destruct (nth_error rvecs k) as [r|] eqn:Hr; [|reflexivity].
  unfold ret at 1.
  unfold bind at 1. unfold at_ at 1.
  destruct (nth_error tvecs k) as [t|] eqn:Ht; [|reflexivity].
  unfold ret at 1.
  rewrite (skipn_at _ imagePoints k i Hi), (skipn_at _ rvecs k r Hr),
    (skipn_at _ tvecs k t Ht) in Hbad.
  cbn [sized firstn] in Hbad.
  rewrite andb_true_r in Hbad. apply Nat.leb_gt in Hbad.
  unfold bind at 1. rewrite projectPoints_run. simpl app at 1.
  unfold bind at 1. rewrite at_in_range with (a := i) by exact Hi.
  unfold bind at 1.
  pose proof (inner_loop_out_of_range imagePoints k i
                (map (project cam r t) o) Hi) as Hthrow.
  rewrite length_map in Hthrow. specialize (Hthrow Hbad).
  specialize (Hthrow (length i) 0 d_zero
                (log ++ projectPoints_calls r t o) eq_refl (Nat.le_0_l _)).
  destruct (for_range 0 (length i)
              (inner_body imagePoints k (map (project cam r t) o)) d_zero
              (log ++ projectPoints_calls r t o)) as [[err|e] log'];
    simpl in Hthrow; [discriminate|]. simpl. now inversion Hthrow.
Qed.

(** The sizes from index [k] on are right when those of the view [k] and
    those from [k + 1] on are. *)
Lemma sized_from (objectPoints : list (list (Point3f F)))
  (imagePoints : list (list (Point2f F))) (rvecs tvecs : list (Mat D))
  (k : nat) (o : list (Point3f F)) :
  nth_error objectPoints k = Some o ->
  sized (skipn k objectPoints) (skipn k imagePoints) (skipn k rvecs)
        (skipn k tvecs)
  = sized [o] (firstn 1 (skipn k imagePoints)) (firstn 1 (skipn k rvecs))
          (firstn 1 (skipn k tvecs)) &&
    sized (skipn (S k) objectPoints) (skipn (S k) imagePoints)
          (skipn (S k) rvecs) (skipn (S k) tvecs).
Proof.
  intros Ho. rewrite (skipn_at _ objectPoints k o Ho).
  destruct (nth_error imagePoints k) as [i|] eqn:Hi;
    [rewrite (skipn_at _ imagePoints k i Hi)
    | rewrite (skipn_past _ imagePoints k Hi); reflexivity].
  destruct (nth_error rvecs k) as [r|] eqn:Hr;
    [rewrite (skipn_at _ rvecs k r Hr)
    | rewrite (skipn_past _ rvecs k Hr); reflexivity].
  destruct (nth_error tvecs k) as [t|] eqn:Ht;
    [rewrite (skipn_at _ tvecs k t Ht)
    | rewrite (skipn_past _ tvecs k Ht); reflexivity].
  cbn [sized firstn]. now rewrite andb_true_r.
Qed.

(** The view [k] when its sizes are right. *)
Lemma sized_view_at (objectPoints : list (list (Point3f F)))
  (imagePoints : list (list (Point2f F))) (rvecs tvecs : list (Mat D))
  (k : nat) (o : list (Point3f F)) :
  nth_error objectPoints k = Some o ->
  sized [o] (firstn 1 (skipn k imagePoints)) (firstn 1 (skipn k rvecs))
        (firstn 1 (skipn k tvecs)) = true ->
  exists v : View D F,
    nth_error objectPoints k = Some (view_objectPoints v) /\
    nth_error imagePoints k = Some (view_imagePoints v) /\
    nth_error rvecs k = Some (view_rvec v) /\
    nth_error tvecs k = Some (view_tvec v) /\
    length (view_imagePoints v) <= length (view_objectPoints v).
Proof.
  intros Ho H.
  destruct (nth_error imagePoints k) as [i|] eqn:Hi;
    [rewrite (skipn_at _ imagePoints k i Hi) in H
    | rewrite (skipn_past _ imagePoints k Hi) in H; discriminate].
  destruct (nth_error rvecs k) as [r|] eqn:Hr;
    [rewrite (skipn_at _ rvecs k r Hr) in H
    | rewrite (skipn_past _ rvecs k Hr) in H; discriminate].
  destruct (nth_error tvecs k) as [t|] eqn:Ht;
    [rewrite (skipn_at _ tvecs k t Ht) in H
    | rewrite (skipn_past _ tvecs k Ht) in H; discriminate].
  cbn [sized firstn] in H. rewrite andb_true_r in H. apply Nat.leb_le in H.
  exists (mkView o i r t). simpl. repeat split; try assumption.
Qed.

(** From a view on where the sizes are wrong, the outer loop throws. *)
Lemma outer_loop_out_of_range (cam : Camera Model)
  (objectPoints : list (list (Point3f F)))
  (imagePoints : list (list (Point2f F))) (rvecs tvecs : list (Mat D))
  (computePerViewErrors : bool) :
  forall count first st log,
    first + count = length objectPoints ->
    sized (skipn first objectPoints) (skipn first imagePoints)
          (skipn first rvecs) (skipn first tvecs) = false ->
    fst (for_range first count
           (outer_body cam objectPoints imagePoints rvecs tvecs
              computePerViewErrors) st log) = Throw out_of_range.
Proof.
  induction count as [|count IH]; intros first st log Hn Hbad.
  - rewrite skipn_all2 in Hbad by lia. discriminate.
  - destruct (nth_error_in_range objectPoints first) as [o Ho]; [lia|].
    rewrite (sized_from _ _ _ _ first o Ho) in Hbad.
    simpl. unfold bind at 1.
    destruct (sized [o] (firstn 1 (skipn first imagePoints))
                (firstn 1 (skipn first rvecs)) (firstn 1 (skipn first tvecs)))
      eqn:Hview.
    + destruct (sized_view_at _ _ _ _ first o Ho Hview)
        as (v & Hvo & Hvi & Hvr & Hvt & Hle).
      rewrite (outer_body_in_range cam _ _ _ _ _ first v st log Hvo Hvi Hvr Hvt Hle).
      apply IH; [lia | exact Hbad].
    + pose proof (outer_body_out_of_range cam objectPoints imagePoints rvecs
                    tvecs computePerViewErrors first o st log Ho Hview) as Hthrow.
      destruct (outer_body cam objectPoints imagePoints rvecs tvecs
                  computePerViewErrors first st log) as [[st'|e] log'];
        simpl in Hthrow; [discriminate|]. simpl. now inversion Hthrow.
Qed.

(** On sizes that are right the outer loop runs through. *)
Lemma reprojectionError_sized_run (cam : Camera Model)
  (objectPoints : list (list (Point3f F)))
  (imagePoints : list (list (Point2f F))) (rvecs tvecs : list (Mat D))
  (computePerViewErrors : bool) (log : list (Call D F)) :
  sized objectPoints imagePoints rvecs tvecs = true ->
  reprojectionError cam objectPoints imagePoints rvecs tvecs
    computePerViewErrors log
  = (Ok (d_div (total_sum cam (zip_views objectPoints imagePoints rvecs tvecs))
               (d_of_size
                  (total_count (zip_views objectPoints imagePoints rvecs tvecs))),
         if computePerViewErrors
         then Some (perViewErrors_of cam
                      (zip_views objectPoints imagePoints rvecs tvecs))
         else None),
     log ++ flat_map view_calls (zip_views objectPoints imagePoints rvecs tvecs)).
Proof.
  intros Hsized.
  destruct (sized_views objectPoints imagePoints rvecs tvecs Hsized)
    as [Hlen Hnth].
  set (vs := zip_views objectPoints imagePoints rvecs tvecs) in *.
  rewrite reprojectionError_loops. unfold bind at 1.
  rewrite for_range_from_zero with
    (Rep := fun k => mkErrState (total_count (firstn k vs))
                       (total_sum cam (firstn k vs))
                       (pending_errors cam vs computePerViewErrors k))
    (ev := fun k => match nth_error vs k with
                    | Some v => view_calls v
                    | None => []
                    end).
  - rewrite <- Hlen. rewrite (flat_map_seq_nth_error view_calls).
    unfold ret. cbn [pointsSoFar totalErr perViewErrors].
    unfold pending_errors, perViewErrors_of. rewrite firstn_all.
    rewrite Nat.sub_diag. simpl repeat. rewrite app_nil_r. reflexivity.
  - unfold pending_errors, create_column. simpl firstn. simpl map.
    rewrite Nat.sub_0_r, Hlen. reflexivity.
  - intros k log' Hk.
    destruct (Hnth k Hk) as (v & Hv & Hvo & Hvi & Hvr & Hvt & Hle).
    rewrite (outer_body_in_range cam _ _ _ _ _ k v _ log' Hvo Hvi Hvr Hvt Hle).
    rewrite Hv. cbn [pointsSoFar totalErr perViewErrors].
    unfold pending_errors.
    rewrite firstn_snoc with (a := v) by exact Hv.
    rewrite total_count_snoc, total_sum_snoc.
    f_equal. f_equal. f_equal.
    destruct computePerViewErrors; [|reflexivity].
    simpl option_map. unfold set_at1. cbn [rows cols data].
    f_equal. f_equal.
    rewrite repeat_pending by (rewrite Hlen; exact Hk).
    rewrite list_set_at_length
      by (rewrite length_map, length_firstn; lia).
    rewrite map_app, <- app_assoc. reflexivity.
Qed.

End OuterLoopFacts.

Section FurtherFacts.
Context {D F Model : Type}.
Context {AR : Arith D F} {LIB : Library D F} {CM : CameraModel D Model}.

Lemma reprojectionError_out_of_range (cam : Camera Model)
  (objectPoints : list (list (Point3f F)))
  (imagePoints : list (list (Point2f F))) (rvecs tvecs : list (Mat D))
  (computePerViewErrors : bool) :
  sized objectPoints imagePoints rvecs tvecs = false ->
  value_of (reprojectionError cam objectPoints imagePoints rvecs tvecs
              computePerViewErrors) = Throw out_of_range.
Proof.
  intros Hbad. unfold value_of. rewrite reprojectionError_loops.
  unfold bind at 1.
  pose proof (outer_loop_out_of_range cam objectPoints imagePoints rvecs tvecs
                computePerViewErrors (length objectPoints) 0
                (mkErrState 0 d_zero
                   (if computePerViewErrors
                    then Some (create_column (length objectPoints)) else None))
                [] eq_refl Hbad) as Hthrow.
  destruct (for_range 0 (length objectPoints)
              (outer_body cam objectPoints imagePoints rvecs tvecs
                 computePerViewErrors) _ []) as [[st|e] log];
    simpl in Hthrow; [discriminate|]. simpl. now inversion Hthrow.
Qed.

(** X2: the multi-view [reprojectionError] returns exactly when, for
    every index of [objectPoints], [imagePoints], [rvecs] and [tvecs] have
    an element and the view has no more image points than object points;
    on every other input it throws [std::out_of_range], from one of the
    [at()] of the loops, whatever the lens model and the arithmetic
    ([cv::Rodrigues] and the lens model themselves do not throw here).  The
    number of views is that of [objectPoints]: longer [imagePoints],
    [rvecs] or [tvecs] are accepted, and so are views with more object
    points than image points. *)
Theorem reprojectionError_returns_iff_in_range (cam : Camera Model)
  (objectPoints : list (list (Point3f F)))
  (imagePoints : list (list (Point2f F))) (rvecs tvecs : list (Mat D))
  (computePerViewErrors : bool) :
  (in_range objectPoints imagePoints rvecs tvecs ->
   exists d errors,
     value_of (reprojectionError cam objectPoints imagePoints rvecs tvecs
                 computePerViewErrors) = Ok (d, errors)) /\
  (~ in_range objectPoints imagePoints rvecs tvecs ->
   value_of (reprojectionError cam objectPoints imagePoints rvecs tvecs
               computePerViewErrors) = Throw out_of_range).
Proof.
  split.
  - intros H. apply (sized_spec objectPoints) in H.
    unfold value_of. rewrite reprojectionError_sized_run by exact H.
    eexists. eexists. reflexivity.
  - intros H. apply reprojectionError_out_of_range.
    destruct (sized objectPoints imagePoints rvecs tvecs) eqn:E; [|reflexivity].
    exfalso. apply H. now apply (sized_spec objectPoints).
Qed.

(** X3: asking for the per-view errors does not change what the
    multi-view [reprojectionError] returns or whether it throws: the
    returned mean, or the exception, is the same with and without
    [_perViewErrors]. *)
Theorem perViewErrors_do_not_change_the_mean (cam : Camera Model)
  (objectPoints : list (list (Point3f F)))
  (imagePoints : list (list (Point2f F))) (rvecs tvecs : list (Mat D)) :
  res_map fst (value_of (reprojectionError cam objectPoints imagePoints rvecs
                           tvecs true))
  = res_map fst (value_of (reprojectionError cam objectPoints imagePoints rvecs
                             tvecs false)).
Proof.
  destruct (sized objectPoints imagePoints rvecs tvecs) eqn:E.
  - unfold value_of. now rewrite !reprojectionError_sized_run by exact E.
  - now rewrite !reprojectionError_out_of_range by exact E.
Qed.

Lemma combine_firstn_length {A B : Type} (l : list A) :
  forall l' : list B, combine l (firstn (length l) l') = combine l l'.
Proof.
  induction l as [|x l IH]; intros [|y l']; simpl; try reflexivity.
  now rewrite IH.
Qed.

Lemma view_distances_trimmed (cam : Camera Model) (o : list (Point3f F))
  (i : list (Point2f F)) (r t : Mat D) :
  view_distances cam (mkView (firstn (length i) o) i r t)
  = view_distances cam (mkView o i r t).
Proof.
  unfold view_distances. cbn [view_objectPoints view_imagePoints view_rvec view_tvec].
  now rewrite <- firstn_map, combine_firstn_length.
Qed.

(** View by view, the trimmed input has the distances and the counts of
    the input. *)
Lemma zip_views_trimmed (cam : Camera Model)
  (objectPoints : list (list (Point3f F))) :
  forall (imagePoints : list (list (Point2f F))) (rvecs tvecs : list (Mat D)),
  sized objectPoints imagePoints rvecs tvecs = true ->
  let n := length objectPoints in
  let vs := zip_views objectPoints imagePoints rvecs tvecs in
  let vs' := zip_views (trim_objectPoints objectPoints imagePoints)
               (firstn n imagePoints) (firstn n rvecs) (firstn n tvecs) in
  sized (trim_objectPoints objectPoints imagePoints) (firstn n imagePoints)
        (firstn n rvecs) (firstn n tvecs) = true /\
  map (view_sum cam) vs' = map (view_sum cam) vs /\
  map view_count vs' = map view_count vs /\
  map (view_error cam) vs' = map (view_error cam) vs /\
  length vs' = length vs.
Proof.
  induction objectPoints as [|o os IH]; intros imagePoints rvecs tvecs H; simpl in *.
  - repeat split.
  - destruct imagePoints as [|i is'], rvecs as [|r rs], tvecs as [|t ts];
      try discriminate.
    apply andb_true_iff in H as [Hle H]. apply Nat.leb_le in Hle.
    destruct (IH _ _ _ H) as (H1 & H2 & H3 & H4 & H5). simpl.
    rewrite H1, H2, H3, H4, H5.
    unfold view_error, view_sum. rewrite view_distances_trimmed.
    unfold view_count. cbn [view_imagePoints].
    rewrite length_firstn, Nat.min_l by exact Hle.
    rewrite Nat.leb_refl. repeat split.
Qed.

(** X4: what is in excess is never read for the error.  On sizes on
    which the multi-view [reprojectionError] returns, the result and the
    per-view errors are those of the aligned input that keeps, of every
    view, as many object points as the view has image points, and of
    [imagePoints], [rvecs] and [tvecs] as many elements as there are
    views in [objectPoints]. *)
Theorem reprojectionError_ignores_surplus (cam : Camera Model)
  (objectPoints : list (list (Point3f F)))
  (imagePoints : list (list (Point2f F))) (rvecs tvecs : list (Mat D))
  (computePerViewErrors : bool) :
  sized objectPoints imagePoints rvecs tvecs = true ->
  let n := length objectPoints in
  let objectPoints' := trim_objectPoints objectPoints imagePoints in
  value_of (reprojectionError cam objectPoints imagePoints rvecs tvecs
              computePerViewErrors)
  = value_of (reprojectionError cam objectPoints' (firstn n imagePoints)
                (firstn n rvecs) (firstn n tvecs) computePerViewErrors) /\
  length (firstn n imagePoints) = length objectPoints' /\
  length (firstn n rvecs) = length objectPoints' /\
  length (firstn n tvecs) = length objectPoints' /\
  Forall2 (fun o i => length o = length i) objectPoints' (firstn n imagePoints).
Proof.
  intros Hs n objectPoints'.
  destruct (zip_views_trimmed cam objectPoints imagePoints rvecs tvecs Hs)
    as (Hs' & Hsum & Hcount & Herr & Hlen).
  fold n in Hs', Hsum, Hcount, Herr, Hlen.
  fold objectPoints' in Hs', Hsum, Hcount, Herr, Hlen.
  split.
  - unfold value_of.
    rewrite reprojectionError_sized_run by exact Hs.
    rewrite reprojectionError_sized_run by exact Hs'.
    cbn [fst]. unfold total_sum, total_count, perViewErrors_of.
    now rewrite Hsum, Hcount, Herr, Hlen.
  - apply (sized_spec objectPoints) in Hs. destruct Hs as (Hi & Hr & Ht & Hle).
    assert (Hlo : length objectPoints' = n).
    { unfold objectPoints', n. clear - Hi. revert imagePoints Hi.
      induction objectPoints as [|o os IH]; intros [|i is'] Hi; simpl in *;
        try lia. f_equal. apply IH. lia. }
    rewrite !length_firstn, Hlo. fold n in Hi, Hr, Ht.
    repeat split; try lia.
    unfold objectPoints', n. clear - Hi Hle. revert imagePoints Hi Hle.
    induction objectPoints as [|o os IH]; intros [|i is'] Hi Hle; simpl in *;
      try lia; constructor.
    + rewrite length_firstn. apply Nat.min_l. apply (Hle 0 o i); reflexivity.
    + apply IH; [lia|]. intros k o' i' Ho' Hi'. apply (Hle (S k)); assumption.
Qed.

End FurtherFacts.


(** ** Calls counted, and calls composed *)

Section CallCounts.
Context {D F Model : Type}.
Context {AR : Arith D F} {LIB : Library D F} {CM : CameraModel D Model}.

Lemma count_Rodrigues_app (l l' : list (Call D F)) :
  count_Rodrigues (l ++ l') = count_Rodrigues l + count_Rodrigues l'.
Proof. unfold count_Rodrigues. now rewrite filter_app, length_app. Qed.

Lemma count_spaceToPlane_app (l l' : list (Call D F)) :
  count_spaceToPlane (l ++ l') = count_spaceToPlane l + count_spaceToPlane l'.
Proof. unfold count_spaceToPlane. now rewrite filter_app, length_app. Qed.

Lemma count_spaceToPlane_map (Ps : list (Vector3d D)) :
  count_spaceToPlane (map (@call_spaceToPlane D F) Ps) = length Ps.
Proof. unfold count_spaceToPlane. induction Ps; simpl; auto. Qed.

Lemma projectPoints_calls_counts (rvec tvec : Mat D)
  (objectPoints : list (Point3f F)) :
  count_Rodrigues (projectPoints_calls rvec tvec objectPoints) = 1 /\
  count_spaceToPlane (projectPoints_calls rvec tvec objectPoints)
  = length objectPoints.
Proof.
  unfold projectPoints_calls.
  rewrite <- (map_map (camera_frame rvec tvec) (@call_spaceToPlane D F)).
  split.
  - change (count_Rodrigues (?c :: ?l)) with (S (count_Rodrigues l)).
    now rewrite count_Rodrigues_spaceToPlane.
  - change (count_spaceToPlane (call_Rodrigues ?r :: ?l))
      with (count_spaceToPlane l).
    now rewrite count_spaceToPlane_map, length_map.
Qed.

Lemma view_calls_counts (objectPoints : list (list (Point3f F))) :
  forall (imagePoints : list (list (Point2f F))) (rvecs tvecs : list (Mat D)),
  sized objectPoints imagePoints rvecs tvecs = true ->
  count_Rodrigues
    (flat_map view_calls (zip_views objectPoints imagePoints rvecs tvecs))
  = length objectPoints /\
  count_spaceToPlane
    (flat_map view_calls (zip_views objectPoints imagePoints rvecs tvecs))
  = list_sum (map (@length (Point3f F)) objectPoints).
Proof.
  induction objectPoints as [|o os IH]; intros imagePoints rvecs tvecs H;
    simpl in *.
  - split; reflexivity.
  - destruct imagePoints as [|i is'], rvecs as [|r rs], tvecs as [|t ts];
      try discriminate.
    apply andb_true_iff in H as [_ H].
    destruct (IH _ _ _ H) as [H1 H2].
    cbn [flat_map]. rewrite count_Rodrigues_app, count_spaceToPlane_app.
    unfold view_calls at 1 3.
    cbn [view_objectPoints view_rvec view_tvec].
    destruct (projectPoints_calls_counts r t o) as [-> ->].
    rewrite H1, H2. split; reflexivity.
Qed.

(** X5: on sizes on which it returns, the multi-view
    [reprojectionError] makes one [cv::Rodrigues] conversion per view and
    one [spaceToPlane] call per object point, also for the object points
    in excess of the image points of their view, whose pixels it then
    does not use. *)
Theorem reprojectionError_projects_every_object_point (cam : Camera Model)
  (objectPoints : list (list (Point3f F)))
  (imagePoints : list (list (Point2f F))) (rvecs tvecs : list (Mat D))
  (computePerViewErrors : bool) :
  sized objectPoints imagePoints rvecs tvecs = true ->
  count_Rodrigues
    (calls_of (reprojectionError cam objectPoints imagePoints rvecs tvecs
                 computePerViewErrors))
  = length objectPoints /\
  count_spaceToPlane
    (calls_of (reprojectionError cam objectPoints imagePoints rvecs tvecs
                 computePerViewErrors))
  = list_sum (map (@length (Point3f F)) objectPoints).
Proof.
  intros H. unfold calls_of.
  rewrite reprojectionError_sized_run by exact H. cbn [snd app].
  now apply view_calls_counts.
Qed.

(** X6: projecting two sequences of object points by two calls of
    [projectPoints] into the same vector leaves there what one call on
    their concatenation leaves, with as many [spaceToPlane] calls; the
    two calls convert the rotation vector twice, the one call once. *)
Theorem projectPoints_in_two_calls (cam : Camera Model)
  (first second : list (Point3f F)) (rvec tvec : Mat D)
  (imagePoints : list (Point2f F)) :
  value_of (projectPoints_twice cam first second rvec tvec imagePoints)
  = value_of (projectPoints cam (first ++ second) rvec tvec imagePoints) /\
  count_spaceToPlane
    (calls_of (projectPoints_twice cam first second rvec tvec imagePoints))
  = count_spaceToPlane
      (calls_of (projectPoints cam (first ++ second) rvec tvec imagePoints)) /\
  count_Rodrigues
    (calls_of (projectPoints_twice cam first second rvec tvec imagePoints)) = 2 /\
  count_Rodrigues
    (calls_of (projectPoints cam (first ++ second) rvec tvec imagePoints)) = 1.
Proof.
  unfold projectPoints_twice, value_of, calls_of, bind.
  rewrite !projectPoints_run. cbn [fst snd app].
  try rewrite projectPoints_run. cbn [fst snd].
  rewrite map_app, app_assoc.
  rewrite count_Rodrigues_app, count_spaceToPlane_app.
  destruct (projectPoints_calls_counts rvec tvec first) as [-> ->].
  destruct (projectPoints_calls_counts rvec tvec second) as [-> ->].
  destruct (projectPoints_calls_counts rvec tvec (first ++ second)) as [-> ->].
  rewrite length_app. repeat split.
Qed.

(** X7: the single-point [reprojectionError] against the pixel of a
    second point is the [reprojectionDist] of the first point, taken to
    the frame of the camera, and the second: the same value in every
    arithmetic.  The former projects one point, the latter both. *)
Theorem reprojectionError_q_is_reprojectionDist (cam : Camera Model)
  (P P2 : Vector3d D) (camera_q : Quaterniond D) (camera_t : Vector3d D) :
  value_of (reprojectionError_q cam P camera_q camera_t
              (spaceToPlane (m_model cam) P2))
  = value_of (reprojectionDist cam
                (vec3_add (mat3_mul_vec (toRotationMatrix camera_q) P) camera_t)
                P2) /\
  calls_of (reprojectionError_q cam P camera_q camera_t
              (spaceToPlane (m_model cam) P2))
  = [call_spaceToPlane
       (vec3_add (mat3_mul_vec (toRotationMatrix camera_q) P) camera_t)] /\
  calls_of (reprojectionDist cam
              (vec3_add (mat3_mul_vec (toRotationMatrix camera_q) P) camera_t)
              P2)
  = [call_spaceToPlane
       (vec3_add (mat3_mul_vec (toRotationMatrix camera_q) P) camera_t);
     call_spaceToPlane P2].
Proof. repeat split. Qed.

End CallCounts.


(** ** Exact arithmetic *)

Section RealFurtherFacts.
Context {Model : Type} {LIB : Library R R} {CM : CameraModel R Model}.
Open Scope R_scope.

Lemma real_dot_le (u0 u1 v0 v1 A B : R) :
  0 <= A -> 0 <= B -> A * A = u0 * u0 + u1 * u1 -> B * B = v0 * v0 + v1 * v1 ->
  u0 * v0 + u1 * v1 <= A * B.
Proof.
  intros HA HB HA2 HB2.
  destruct (Rle_dec (u0 * v0 + u1 * v1) (A * B)) as [H|H]; [exact H|].
  exfalso. apply Rnot_le_lt in H.
  assert (H0 : 0 <= A * B) by (now apply Rmult_le_pos).
  assert (H1 : (A * B) * (A * B) < (u0 * v0 + u1 * v1) * (u0 * v0 + u1 * v1))
    by nra.
  assert (H2 : (A * B) * (A * B) = (u0 * u0 + u1 * u1) * (v0 * v0 + v1 * v1))
    by (rewrite <- HA2, <- HB2; ring).
  assert (H3 : 0 <= (u0 * v1 - u1 * v0) * (u0 * v1 - u1 * v0))
    by apply Rle_0_sqr.
  nra.
Qed.

Lemma real_hypot_triangle (u0 u1 v0 v1 : R) :
  sqrt ((u0 + v0) * (u0 + v0) + (u1 + v1) * (u1 + v1))
  <= sqrt (u0 * u0 + u1 * u1) + sqrt (v0 * v0 + v1 * v1).
Proof.
  set (A := sqrt (u0 * u0 + u1 * u1)). set (B := sqrt (v0 * v0 + v1 * v1)).
  assert (HA : 0 <= A) by apply sqrt_pos.
  assert (HB : 0 <= B) by apply sqrt_pos.
  assert (HA2 : A * A = u0 * u0 + u1 * u1) by (apply sqrt_sqrt; nra).
  assert (HB2 : B * B = v0 * v0 + v1 * v1) by (apply sqrt_sqrt; nra).
  pose proof (real_dot_le u0 u1 v0 v1 A B HA HB HA2 HB2) as Hdot.
  rewrite <- (sqrt_square (A + B)) by lra.
  apply sqrt_le_1_alt. nra.
Qed.

Lemma real_vec2_norm_sym (a b : Vector2d R) :
  vec2_norm (vec2_sub a b) = vec2_norm (vec2_sub b a).
Proof. unfold vec2_norm, vec2_sub. cbn. f_equal. ring. Qed.

Lemma real_vec2_norm_triangle (a b c : Vector2d R) :
  vec2_norm (vec2_sub a c)
  <= vec2_norm (vec2_sub a b) + vec2_norm (vec2_sub b c).
Proof.
  unfold vec2_norm, vec2_sub. cbn.
  replace (e0 a - e0 c) with ((e0 a - e0 b) + (e0 b - e0 c)) by ring.
  replace (e1 a - e1 c) with ((e1 a - e1 b) + (e1 b - e1 c)) by ring.
  apply real_hypot_triangle.
Qed.

(** X8: in exact arithmetic [reprojectionDist] is symmetric in its two
    points and satisfies the triangle inequality: it is a pseudometric on
    the points of space, the distance of their pixels. *)
Theorem reprojectionDist_symmetric_and_triangular (cam : Camera Model)
  (P1 P2 P3 : Vector3d R) :
  value_of (reprojectionDist cam P1 P2) = value_of (reprojectionDist cam P2 P1) /\
  exists d12 d23 d13 : R,
    value_of (reprojectionDist cam P1 P2) = Ok d12 /\
    value_of (reprojectionDist cam P2 P3) = Ok d23 /\
    value_of (reprojectionDist cam P1 P3) = Ok d13 /\
    d13 <= d12 + d23.
Proof.
  split.
  - unfold value_of, reprojectionDist, bind, do_spaceToPlane, tell, ret, bind.
    cbn [fst]. f_equal. apply real_vec2_norm_sym.
  - eexists. eexists. eexists.
    split; [reflexivity|]. split; [reflexivity|]. split; [reflexivity|].
    apply real_vec2_norm_triangle.
Qed.

(** The pixel distance does not depend on which point is subtracted. *)
Lemma real_pixel_distance_vec2 (a : Point2f R) (p : Vector2d R) :
  pixel_distance a (to_Point2f p) = vec2_norm (vec2_sub p (to_Vector2d a)).
Proof.
  unfold pixel_distance, cv_norm, point2f_sub, vec2_norm, vec2_sub,
    to_Point2f, to_Vector2d.
  cbn. f_equal. ring.
Qed.

(** X9: in exact arithmetic the two overloads of [reprojectionError]
    agree on one point: for one view with one object point and one
    observation, the multi-view overload returns what the single-point
    overload returns for the pose whose rotation matrix is the one
    [cv::Rodrigues] gives and whose translation is the one read off
    [tvec].  (The former subtracts the estimate from the observation, the
    latter the observation from the estimate.) *)
Theorem reprojectionError_of_one_point (cam : Camera Model)
  (P : Point3f R) (observed : Point2f R) (rvec tvec : Mat R)
  (camera_q : Quaterniond R) (camera_t : Vector3d R) :
  rotation_of rvec = toRotationMatrix camera_q ->
  translation_of tvec = camera_t ->
  res_map fst (value_of (reprojectionError cam [[P]] [[observed]] [rvec] [tvec]
                           false))
  = value_of (reprojectionError_q cam (to_Vector3d P) camera_q camera_t
                (to_Vector2d observed)).
Proof.
  intros HR Ht.
  change (value_of (reprojectionError_q cam (to_Vector3d P) camera_q camera_t
                      (to_Vector2d observed)))
    with (Ok (vec2_norm
                (vec2_sub
                   (spaceToPlane (m_model cam)
                      (vec3_add (mat3_mul_vec (toRotationMatrix camera_q)
                                   (to_Vector3d P)) camera_t))
                   (to_Vector2d observed)))).
  unfold value_of.
  rewrite reprojectionError_sized_run by reflexivity.
  cbn [fst res_map zip_views].
  unfold total_sum, total_count, view_sum, view_distances, view_count,
    sum_from_zero.
  cbn [map combine fold_left list_sum length fst snd view_imagePoints
       view_objectPoints view_rvec view_tvec].
  f_equal.
  unfold project, camera_frame. rewrite HR, Ht.
  rewrite real_pixel_distance_vec2.
  change (@d_div R R real_Arith) with Rdiv.
  change (@d_add R R real_Arith) with Rplus.
  change (@d_zero R R real_Arith) with 0.
  change (@d_of_size R R real_Arith) with INR.
  replace (INR (list_sum [1%nat])) with 1 by (simpl; lra).
  unfold Rdiv. rewrite Rinv_1. ring.
Qed.

(** Over the reals a view's per-view error times the number of its
    points is the sum of its distances, when it has a point. *)
Lemma real_view_error_weighted (cam : Camera Model) (v : View R R) :
  (0 < view_count v)%nat ->
  INR (view_count v) * view_error cam v = view_sum cam v.
Proof.
  intros H. unfold view_error.
  change (@d_div R R real_Arith) with Rdiv.
  change (@d_of_size R R real_Arith) with INR.
  field. apply not_0_INR. lia.
Qed.

Lemma real_sum_ext (A : Type) (f g : A -> R) (l : list A) :
  Forall (fun a => f a = g a) l ->
  sum_from_zero (map f l) = sum_from_zero (map g l).
Proof.
  intros H. f_equal. induction H; simpl; congruence.
Qed.

Lemma combine_zip_views (f : View R R -> R)
  (objectPoints : list (list (Point3f R))) :
  forall (imagePoints : list (list (Point2f R))) (rvecs tvecs : list (Mat R)),
  sized objectPoints imagePoints rvecs tvecs = true ->
  let vs := zip_views objectPoints imagePoints rvecs tvecs in
  combine imagePoints (map f vs)
  = map (fun v => (view_imagePoints v, f v)) vs /\
  firstn (length objectPoints) imagePoints = map (@view_imagePoints R R) vs.
Proof.
  induction objectPoints as [|o os IH]; intros imagePoints rvecs tvecs H;
    simpl in *.
  - split; [now destruct imagePoints | reflexivity].
  - destruct imagePoints as [|i is'], rvecs as [|r rs], tvecs as [|t ts];
      try discriminate.
    apply andb_true_iff in H as [_ H].
    destruct (IH _ _ _ H) as [H1 H2]. simpl. now rewrite H1, H2.
Qed.

(** X10: in exact arithmetic, when every view has an image point, the
    value the multi-view [reprojectionError] returns is the mean of the
    per-view errors it writes, each weighted by the number of image
    points of its view; the matrix of the per-view errors has one row
    per view of [objectPoints]. *)
Theorem reprojectionError_is_weighted_mean_of_perViewErrors (cam : Camera Model)
  (objectPoints : list (list (Point3f R)))
  (imagePoints : list (list (Point2f R))) (rvecs tvecs : list (Mat R)) :
  sized objectPoints imagePoints rvecs tvecs = true ->
  Forall (fun i => i <> []) (firstn (length objectPoints) imagePoints) ->
  exists (d : R) (errors : Mat R),
    value_of (reprojectionError cam objectPoints imagePoints rvecs tvecs true)
    = Ok (d, Some errors) /\
    rows errors = length objectPoints /\
    length (data errors) = length objectPoints /\
    d = sum_from_zero
          (map (fun ie => INR (length (fst ie)) * snd ie)
               (combine imagePoints (data errors)))
        / INR (list_sum (map (@length (Point2f R))
                             (firstn (length objectPoints) imagePoints))).
Proof.
  intros Hs Hne.
  destruct (sized_views objectPoints imagePoints rvecs tvecs Hs) as [Hlen _].
  destruct (combine_zip_views (view_error cam) objectPoints imagePoints rvecs
              tvecs Hs) as [Hc Hf].
  cbv zeta in Hc, Hf.
  eexists. eexists. split; [|split; [|split]].
  - unfold value_of. rewrite reprojectionError_sized_run by exact Hs.
    reflexivity.
  - exact Hlen.
  - cbn [perViewErrors_of data]. now rewrite length_map.
  - cbn [perViewErrors_of data]. rewrite Hc, Hf, !map_map.
    cbn [fst snd].
    change (@d_div R R real_Arith) with Rdiv.
    change (@d_of_size R R real_Arith) with INR.
    unfold total_count, total_sum, view_count at 1.
    f_equal. apply real_sum_ext.
    rewrite Hf in Hne. rewrite Forall_map in Hne.
    eapply Forall_impl; [|exact Hne]. intros v Hv. cbv beta in *.
    symmetry. apply (real_view_error_weighted cam v).
    unfold view_count. destruct (view_imagePoints v); [congruence | simpl; lia].
Qed.

Lemma real_is_zero_false (x : R) : d_is_zero x = false -> x <> 0.
Proof.
  cbn. unfold R_is_zero. now destruct (Req_dec_T x 0).
Qed.

(** Over the reals the idealized point of the pixel of a point that the
    lens model lifts back onto its ray is the normalized pixel of the
    point. *)
Lemma real_idealized_projection (cam : Camera Model) (Q : Vector3d R) (k : R) :
  w2 Q <> 0 -> k <> 0 ->
  liftProjective (m_model cam) (spaceToPlane (m_model cam) Q) = vec3_scale k Q ->
  idealized_point cam (to_Point2f (spaceToPlane (m_model cam) Q))
  = normalized_pixel Q.
Proof.
  intros Hz Hk Hlift.
  unfold idealized_point, normalized_ray, lifted_ray, normalized_pixel.
  assert (Hp : to_Vector2d (F := R) (to_Point2f (spaceToPlane (m_model cam) Q))
               = spaceToPlane (m_model cam) Q).
  { unfold to_Vector2d, to_Point2f. cbn.
    now destruct (spaceToPlane (m_model cam) Q). }
  rewrite Hp, Hlift. unfold vec3_div, vec3_scale. cbn.
  f_equal; now field.
Qed.

(** X11: in exact arithmetic [estimateExtrinsics] undoes the lens model
    of [projectPoints].  When the lens model lifts the pixel of every
    projected point back onto the ray of the point, and no point lies in
    the plane of the optical centre, then on the pixels [projectPoints]
    produces for a pose, [estimateExtrinsics] hands [cv::solvePnP] the
    points [(x / z, y / z)] of the object points in the frame of that
    pose, whatever the intrinsics. *)
Theorem estimateExtrinsics_of_projected_points (cam : Camera Model)
  (objectPoints : list (Point3f R)) (rvec tvec rvec0 tvec0 : Mat R) :
  Forall (fun P => lifts_back cam (camera_frame rvec tvec P)) objectPoints ->
  exists pixels : list (Point2f R),
    value_of (projectPoints cam objectPoints rvec tvec []) = Ok pixels /\
    value_of (estimateExtrinsics cam objectPoints pixels rvec0 tvec0)
    = solvePnP objectPoints
        (map (fun P => normalized_pixel (camera_frame rvec tvec P)) objectPoints)
        eye33 None (rvec0, tvec0).
Proof.
  intros H. eexists. split.
  - unfold value_of. rewrite projectPoints_run. reflexivity.
  - unfold value_of. rewrite estimateExtrinsics_run. cbn [fst app].
    f_equal. rewrite map_map.
    induction H as [|P Ps HP _ IH]; [reflexivity|].
    cbn [map]. rewrite IH. f_equal.
    destruct HP as (Hz & k & Hk & Hlift).
    unfold project.
    apply real_idealized_projection with (k := k);
      [now apply real_is_zero_false | now apply real_is_zero_false | exact Hlift].
Qed.

End RealFurtherFacts.


(** ** The further facts on the sample inputs *)

Module SurplusFacts.
Import PrimFloat Sample Surplus.
#[local] Existing Instance identity_Library.
#[local] Existing Instance UnitPinhole_model.

(** Three object points for two image points in the first view, image
    points and a rotation for a third view: the error is that of the two
    views with two and one point. *)
Lemma reprojectionError_ignores_surplus_witness :
  value_of (reprojectionError pinhole_camera surplus_objectPoints
              surplus_imagePoints surplus_rvecs surplus_tvecs true)
  = value_of (reprojectionError pinhole_camera
                [[on_axis; on_axis]; [on_axis]]
                [[pixel 2 0; pixel 0 2]; [pixel 0 3]]
                [no_motion; no_motion] [no_motion; no_motion] true).
Proof.
  exact (proj1 (reprojectionError_ignores_surplus pinhole_camera
                  surplus_objectPoints surplus_imagePoints surplus_rvecs
                  surplus_tvecs true eq_refl)).
Defined.

(** The same views: two conversions, four projections for three
    observations. *)
Lemma reprojectionError_projects_every_object_point_witness :
  count_Rodrigues
    (calls_of (reprojectionError pinhole_camera surplus_objectPoints
                 surplus_imagePoints surplus_rvecs surplus_tvecs false)) = 2 /\
  count_spaceToPlane
    (calls_of (reprojectionError pinhole_camera surplus_objectPoints
                 surplus_imagePoints surplus_rvecs surplus_tvecs false)) = 4.
Proof.
  exact (reprojectionError_projects_every_object_point pinhole_camera
           surplus_objectPoints surplus_imagePoints surplus_rvecs
           surplus_tvecs false eq_refl).
Defined.

End SurplusFacts.

Module ExactFacts.
Import Exact.
#[local] Existing Instance identity_Library.
#[local] Existing Instance UnitPinhole_model.
Open Scope R_scope.

(** The point [(1, 2, 4)] seen at the origin of the image, under the
    identity pose. *)
Lemma reprojectionError_of_one_point_witness :
  res_map fst (value_of (reprojectionError exact_camera
                           [[mkPoint3f 1 2 4]] [[mkPoint2f 0 0]]
                           [exact_no_motion] [exact_no_motion] false))
  = value_of (reprojectionError_q exact_camera
                (to_Vector3d (mkPoint3f 1 2 4)) unit_quaternion zero3
                (to_Vector2d (mkPoint2f 0 0))).
Proof.
  apply (reprojectionError_of_one_point exact_camera (mkPoint3f 1 2 4)
           (mkPoint2f 0 0) exact_no_motion exact_no_motion unit_quaternion
           zero3).
  - reflexivity.
  - reflexivity.
Defined.

(** Two views of two points, with two and one observation. *)
Lemma reprojectionError_is_weighted_mean_of_perViewErrors_witness :
  exists (d : R) (errors : Mat R),
    value_of (reprojectionError exact_camera exact_objectPoints
                exact_imagePoints exact_rvecs exact_tvecs true)
    = Ok (d, Some errors) /\
    rows errors = 2%nat /\
    length (data errors) = 2%nat /\
    d = sum_from_zero
          (map (fun ie => INR (length (fst ie)) * snd ie)
               (combine exact_imagePoints (data errors)))
        / INR 3.
Proof.
  apply (reprojectionError_is_weighted_mean_of_perViewErrors exact_camera
           exact_objectPoints exact_imagePoints exact_rvecs exact_tvecs).
  - reflexivity.
  - repeat constructor; discriminate.
Defined.

(** The unit pinhole lifts [(x / z, y / z)] to [(x / z, y / z, 1)], the
    point divided by [z]. *)
Lemma exact_points_lift_back :
  Forall (fun P => lifts_back exact_camera
                     (camera_frame exact_no_motion exact_no_motion P))
         exact_points.
Proof.
  assert (Hnz : forall x : R, x <> 0 -> R_is_zero x = false).
  { intros x Hx. unfold R_is_zero. now destruct (Req_dec_T x 0). }
  repeat constructor.
  - cbn. apply Hnz. lra.
  - exists (/ 4). split; [cbn; apply Hnz; lra|].
    cbn. unfold vec3_scale. cbn. f_equal; field.
  - cbn. apply Hnz. lra.
  - exists (/ 2). split; [cbn; apply Hnz; lra|].
    cbn. unfold vec3_scale. cbn. f_equal; field.
Qed.

(** The pixels of the two points under the identity pose, handed back. *)
Lemma estimateExtrinsics_of_projected_points_witness :
  exists pixels : list (Point2f R),
    value_of (projectPoints exact_camera exact_points exact_no_motion
                exact_no_motion []) = Ok pixels /\
    value_of (estimateExtrinsics exact_camera exact_points pixels
                exact_no_motion exact_no_motion)
    = solvePnP exact_points
        (map (fun P => normalized_pixel
                         (camera_frame exact_no_motion exact_no_motion P))
             exact_points)
        eye33 None (exact_no_motion, exact_no_motion).
Proof.
  apply (estimateExtrinsics_of_projected_points exact_camera exact_points
           exact_no_motion exact_no_motion exact_no_motion exact_no_motion).
  exact exact_points_lift_back.
Defined.

End ExactFacts.


(* ================================================================== *)
(** * Part X.  Binary64 *)
(* ================================================================== *)

(** The operations of binary64 on the numbers the algorithms meet, from
    the specification of the primitive floating-point numbers. *)
Module Binary64Facts.
Import PrimFloat FloatOps SpecFloat FloatAxioms.

(** ** One times [x], and zero added to [x] *)

Lemma Prim2SF_zero : Prim2SF zero = S754_zero false.
Proof. reflexivity. Qed.

Lemma Prim2SF_one : Prim2SF one = S754_finite false 4503599627370496 (-52).
Proof. reflexivity. Qed.

(** The exponent of a binary64 number is the one its mantissa asks for. *)
Lemma canonical_fexp (m : positive) (e : Z) :
  bounded prec emax m e = true ->
  fexp prec emax (Zpos (digits2_pos m) + e) = e /\ (e <=? emax - prec)%Z = true.
Proof.
  unfold bounded, canonical_mantissa. intros H.
  apply andb_true_iff in H as [H1 H2]. apply Z.eqb_eq in H1. now split.
Qed.

(** [1.0 * x] shifts the mantissa of [x] left by 52 bits and rounds it
    back, exactly. *)
Lemma mul_one_finite (s : bool) (m : positive) (e : Z) :
  bounded prec emax m e = true ->
  SF64mul (S754_finite false 4503599627370496 (-52)) (S754_finite s m e)
  = S754_finite s m e.
Proof.
  intros Hb. destruct (canonical_fexp m e Hb) as [Hc He].
  unfold SF64mul, SFmul. cbn [xorb].
  unfold binary_round_aux.
  assert (Hd : Zdigits2 (Zpos (4503599627370496 * m))
               = (Zpos (digits2_pos m) + 52)%Z).
  { cbn [Pos.mul Zdigits2 digits2_pos]. rewrite !Pos2Z.inj_succ. lia. }
  assert (H1 : shr_fexp prec emax (Zpos (4503599627370496 * m)) (-52 + e) loc_Exact
               = ({| shr_m := Zpos m; shr_r := false; shr_s := false |}, e)).
  { unfold shr_fexp. rewrite Hd.
    replace (Zpos (digits2_pos m) + 52 + (-52 + e))%Z
      with (Zpos (digits2_pos m) + e)%Z by lia.
    rewrite Hc. replace (e - (-52 + e))%Z with 52%Z by lia.
    cbn [Pos.mul shr shr_record_of_loc iter_pos shr_1 orb].
    f_equal. lia. }
  rewrite H1. cbn [shr_m loc_of_shr_record round_nearest_even].
  assert (H2 : shr_fexp prec emax (Zpos m) e loc_Exact
               = ({| shr_m := Zpos m; shr_r := false; shr_s := false |}, e)).
  { unfold shr_fexp. cbn [Zdigits2]. rewrite Hc, Z.sub_diag. reflexivity. }
  rewrite H2. cbn [shr_m]. now rewrite He.
Qed.

Lemma binary64_mul_one_l (x : float) : mul one x = x.
Proof.
  apply Prim2SF_inj. rewrite mul_spec, Prim2SF_one.
  pose proof (Prim2SF_valid x) as Hv.
  destruct (Prim2SF x) as [s|s| |s m e]; try reflexivity.
  now apply mul_one_finite.
Qed.


(** A row of the identity matrix times a finite point, plus zero. *)
Lemma identity_row_0 (x y z : float) :
  finite64 x = true -> finite64 y = true -> finite64 z = true ->
  add (add (add (mul one x) (mul zero y)) (mul zero z)) zero = add x zero.
Proof.
  unfold finite64. intros Hx Hy Hz. rewrite binary64_mul_one_l.
  apply Prim2SF_inj. rewrite !add_spec, !mul_spec, Prim2SF_zero.
  destruct (Prim2SF x) as [sx|sx| |sx mx ex]; try discriminate;
  destruct (Prim2SF y) as [sy|sy| |sy my ey]; try discriminate;
  destruct (Prim2SF z) as [sz|sz| |sz mz ez]; try discriminate;
  destruct sx, sy, sz; reflexivity.
Qed.

Lemma identity_row_1 (x y z : float) :
  finite64 x = true -> finite64 y = true -> finite64 z = true ->
  add (add (add (mul zero x) (mul one y)) (mul zero z)) zero = add y zero.
Proof.
  unfold finite64. intros Hx Hy Hz. rewrite binary64_mul_one_l.
  apply Prim2SF_inj. rewrite !add_spec, !mul_spec, Prim2SF_zero.
  destruct (Prim2SF x) as [sx|sx| |sx mx ex]; try discriminate;
  destruct (Prim2SF y) as [sy|sy| |sy my ey]; try discriminate;
  destruct (Prim2SF z) as [sz|sz| |sz mz ez]; try discriminate;
  destruct sx, sy, sz; reflexivity.
Qed.

Lemma identity_row_2 (x y z : float) :
  finite64 x = true -> finite64 y = true -> finite64 z = true ->
  add (add (add (mul zero x) (mul zero y)) (mul one z)) zero = add z zero.
Proof.
  unfold finite64. intros Hx Hy Hz. rewrite binary64_mul_one_l.
  apply Prim2SF_inj. rewrite !add_spec, !mul_spec, Prim2SF_zero.
  destruct (Prim2SF x) as [sx|sx| |sx mx ex]; try discriminate;
  destruct (Prim2SF y) as [sy|sy| |sy my ey]; try discriminate;
  destruct (Prim2SF z) as [sz|sz| |sz mz ez]; try discriminate;
  destruct sx, sy, sz; reflexivity.
Qed.

Lemma binary64_add_zero_r (x : float) :
  finite64 x = true -> negative_zero x = false -> add x zero = x.
Proof.
  unfold finite64, negative_zero. intros Hf Hn.
  apply Prim2SF_inj. rewrite add_spec, Prim2SF_zero.
  destruct (Prim2SF x) as [[|]|s| |s m e]; try discriminate; reflexivity.
Qed.

Lemma identity_pose_plus_zero (P : Point3f float32) :
  finite_point P = true ->
  vec3_add (mat3_mul_vec identity3 (to_Vector3d P)) zero3 = plus_zero P.
Proof.
  unfold finite_point. intros H.
  apply andb_true_iff in H as [H Hz]. apply andb_true_iff in H as [Hx Hy].
  unfold vec3_add, mat3_mul_vec, identity3, zero3, to_Vector3d, plus_zero.
  cbn.
  rewrite identity_row_0, identity_row_1, identity_row_2 by assumption.
  reflexivity.
Qed.

Lemma plus_zero_fixed (P : Point3f float32) :
  finite_point P = true -> no_negative_zero P = true ->
  plus_zero P = to_Vector3d P.
Proof.
  unfold finite_point, no_negative_zero. intros H Hn.
  apply andb_true_iff in H as [H Hz]. apply andb_true_iff in H as [Hx Hy].
  apply andb_true_iff in Hn as [Hn Hnz]. apply andb_true_iff in Hn as [Hnx Hny].
  apply negb_true_iff in Hnx, Hny, Hnz.
  unfold plus_zero, to_Vector3d. cbn.
  now rewrite !binary64_add_zero_r by assumption.
Qed.

Section Pose.
Context {Model : Type} {LIB : Library float float32} {CM : CameraModel float Model}.

Lemma projectPoints_identity_pose_binary64 (cam : Camera Model)
  (objectPoints : list (Point3f float32)) (rvec tvec : Mat float) :
  Rodrigues rvec = eye33 -> translation_of tvec = zero3 ->
  forallb finite_point objectPoints = true ->
  value_of (projectPoints cam objectPoints rvec tvec [])
  = Ok (map (fun P => to_Point2f (spaceToPlane (m_model cam) (plus_zero P)))
            objectPoints).
Proof.
  intros HR Ht Hfin. unfold value_of. rewrite projectPoints_run. cbn [fst app].
  f_equal. apply map_ext_in. intros P HP.
  unfold project, camera_frame.
  rewrite rotation_of_identity by exact HR. rewrite Ht.
  rewrite forallb_forall in Hfin.
  now rewrite identity_pose_plus_zero by (now apply Hfin).
Qed.

Lemma plus_zero_map (cam : Camera Model) (objectPoints : list (Point3f float32)) :
  forallb finite_point objectPoints = true ->
  forallb no_negative_zero objectPoints = true ->
  map (fun P => to_Point2f (spaceToPlane (m_model cam) (plus_zero P))) objectPoints
  = map (fun P => to_Point2f (F := float32)
                    (spaceToPlane (m_model cam) (to_Vector3d P))) objectPoints.
Proof.
  intros Hf Hn. apply map_ext_in. intros P HP.
  rewrite forallb_forall in Hf, Hn.
  now rewrite plus_zero_fixed by (now (apply Hf || apply Hn)).
Qed.

End Pose.


(** ** Signs *)

Lemma binary_round_aux_unsigned (m e : Z) (l : location) :
  sf_unsigned (binary_round_aux prec emax false m e l) = true.
Proof.
  unfold binary_round_aux.
  destruct (shr_fexp prec emax m e l) as [mrs' e'].
  destruct (shr_fexp prec emax _ e' loc_Exact) as [mrs'' e''].
  destruct (shr_m mrs''); [reflexivity | | reflexivity].
  now destruct (e'' <=? emax - prec)%Z.
Qed.

Lemma binary_round_unsigned (m : positive) (e : Z) :
  sf_unsigned (binary_round prec emax false m e) = true.
Proof.
  unfold binary_round. destruct (shl_align m e _) as [mz ez].
  apply binary_round_aux_unsigned.
Qed.

Lemma mul_self_unsigned (x : float) : unsigned64 (mul x x) = true.
Proof.
  unfold unsigned64. rewrite mul_spec. unfold SF64mul, SFmul.
  destruct (Prim2SF x) as [s|s| |s m e];
    [now destruct s | now destruct s | reflexivity |].
  replace (xorb s s) with false by (now destruct s).
  apply binary_round_aux_unsigned.
Qed.

Lemma add_unsigned (x y : float) :
  unsigned64 x = true -> unsigned64 y = true -> unsigned64 (add x y) = true.
Proof.
  unfold unsigned64. rewrite add_spec. unfold SF64add, SFadd.
  destruct (Prim2SF x) as [[|]|[|]| |[|] mx ex]; try discriminate;
  destruct (Prim2SF y) as [[|]|[|]| |[|] my ey]; try discriminate;
    intros _ _; try reflexivity.
  cbn [cond_Zopp Z.add binary_normalize]. apply binary_round_unsigned.
Qed.

Lemma sqrt_unsigned (x : float) :
  unsigned64 x = true -> unsigned64 (sqrt x) = true.
Proof.
  unfold unsigned64. rewrite sqrt_spec. unfold SF64sqrt, SFsqrt.
  destruct (Prim2SF x) as [[|]|[|]| |[|] mx ex]; try discriminate;
    intros _; try reflexivity.
  destruct (SFsqrt_core_binary prec emax (Zpos mx) ex) as [[mz ez] lz].
  apply binary_round_aux_unsigned.
Qed.

Lemma div_unsigned (x y : float) :
  unsigned64 x = true -> unsigned64 y = true -> unsigned64 (div x y) = true.
Proof.
  unfold unsigned64. rewrite div_spec. unfold SF64div, SFdiv.
  destruct (Prim2SF x) as [[|]|[|]| |[|] mx ex]; try discriminate;
  destruct (Prim2SF y) as [[|]|[|]| |[|] my ey]; try discriminate;
    intros _ _; try reflexivity.
  destruct (SFdiv_core_binary prec emax (Zpos mx) ex (Zpos my) ey)
    as [[mz ez] lz].
  apply binary_round_aux_unsigned.
Qed.

Lemma of_uint63_unsigned (n : Uint63.int) : unsigned64 (of_uint63 n) = true.
Proof.
  unfold unsigned64. rewrite of_uint63_spec.
  pose proof (Uint63.to_Z_bounded n) as Hn.
  destruct (Uint63.to_Z n) as [|p|p]; [reflexivity | | lia].
  apply binary_round_unsigned.
Qed.

Lemma unsigned_nonneg_or_nan (d : float) :
  unsigned64 d = true -> nonneg_or_nan d = true.
Proof.
  unfold unsigned64, nonneg_or_nan, is_nan.
  rewrite leb_spec, eqb_spec, Prim2SF_zero.
  now destruct (Prim2SF d) as [[|]|[|]| |[|] m e].
Qed.

Lemma zero_unsigned : unsigned64 zero = true.
Proof. reflexivity. Qed.

Lemma vec2_norm_unsigned (a : Vector2d float) : unsigned64 (vec2_norm a) = true.
Proof.
  unfold vec2_norm. cbn [d_sqrt d_add d_mul ieee_Arith].
  apply sqrt_unsigned, add_unsigned; apply mul_self_unsigned.
Qed.

Lemma cv_norm_unsigned (a : Point2f float32) : unsigned64 (cv_norm a) = true.
Proof.
  unfold cv_norm. cbn [d_sqrt d_add d_mul ieee_Arith].
  apply sqrt_unsigned, add_unsigned; apply mul_self_unsigned.
Qed.

Lemma fold_add_unsigned (l : list float) :
  Forall (fun d => unsigned64 d = true) l ->
  forall a, unsigned64 a = true -> unsigned64 (fold_left add l a) = true.
Proof.
  induction 1 as [|x l Hx Hl IH]; intros a Ha; simpl.
  - exact Ha.
  - apply IH. now apply add_unsigned.
Qed.

Lemma sum_from_zero_unsigned (l : list float) :
  Forall (fun d => unsigned64 d = true) l -> unsigned64 (sum_from_zero l) = true.
Proof.
  intros H. unfold sum_from_zero. cbn [d_add d_zero ieee_Arith].
  apply fold_add_unsigned; [exact H | exact zero_unsigned].
Qed.

(** ** Zeros *)

Lemma binary64_sub_diag (x : float) : finite64 x = true -> sub x x = zero.
Proof.
  unfold finite64. intros H. apply Prim2SF_inj.
  rewrite sub_spec, Prim2SF_zero. unfold SF64sub, SFsub.
  destruct (Prim2SF x) as [[|]|s| |s m e]; try discriminate; try reflexivity.
  now rewrite Z.sub_diag.
Qed.

Lemma fold_add_zero (l : list float) :
  Forall (fun d => d = zero) l -> fold_left add l zero = zero.
Proof.
  induction 1 as [|x l Hx Hl IH]; simpl; [reflexivity|].
  subst x. exact IH.
Qed.

Lemma div_zero_positive (y : float) :
  positive64 y = true -> div zero y = zero.
Proof.
  unfold positive64. intros H. apply Prim2SF_inj.
  rewrite div_spec, Prim2SF_zero. unfold SF64div, SFdiv.
  now destruct (Prim2SF y) as [[|]|[|]| |[|] m e].
Qed.


(** ** Rounding a positive integer does not give zero *)

Lemma digits2_pos_iter_xO (p k : positive) :
  Zpos (digits2_pos (Pos.iter xO p k)) = (Zpos (digits2_pos p) + Zpos k)%Z.
Proof.
  induction k as [|k IH] using Pos.peano_ind.
  - cbn. lia.
  - rewrite Pos.iter_succ. cbn [digits2_pos]. lia.
Qed.

Lemma digits2_pos_succ (q : positive) :
  (Zpos (digits2_pos q) <= Zpos (digits2_pos (Pos.succ q)))%Z.
Proof.
  induction q as [q IH|q IH|]; cbn [Pos.succ digits2_pos]; lia.
Qed.

Lemma iter_pos_nat {A : Type} (f : A -> A) (n : positive) :
  forall x, iter_pos f n x = Nat.iter (Pos.to_nat n) f x.
Proof.
  induction n as [n IH|n IH|]; intros x; cbn [iter_pos].
  - rewrite !IH, Pos2Nat.inj_xI.
    replace (S (2 * Pos.to_nat n)) with (Pos.to_nat n + S (Pos.to_nat n)) by lia.
    now rewrite Nat.iter_add, Nat.iter_succ_r.
  - rewrite !IH, Pos2Nat.inj_xO.
    replace (2 * Pos.to_nat n) with (Pos.to_nat n + Pos.to_nat n) by lia.
    now rewrite Nat.iter_add.
  - reflexivity.
Qed.

Lemma shr_1_positive (q : positive) (r s : bool) :
  (2 <= Zpos (digits2_pos q))%Z ->
  exists q' r' s',
    shr_1 {| shr_m := Zpos q; shr_r := r; shr_s := s |}
    = {| shr_m := Zpos q'; shr_r := r'; shr_s := s' |} /\
    (Zpos (digits2_pos q') = Zpos (digits2_pos q) - 1)%Z.
Proof.
  intros H. destruct q as [q|q|]; cbn [shr_1 digits2_pos] in *.
  - eexists. eexists. eexists. split; [reflexivity | lia].
  - eexists. eexists. eexists. split; [reflexivity | lia].
  - lia.
Qed.

Lemma shr_iter_positive (j : nat) :
  forall (q : positive) (r s : bool),
  (Z.of_nat j < Zpos (digits2_pos q))%Z ->
  exists q' r' s',
    Nat.iter j shr_1 {| shr_m := Zpos q; shr_r := r; shr_s := s |}
    = {| shr_m := Zpos q'; shr_r := r'; shr_s := s' |} /\
    (Zpos (digits2_pos q') = Zpos (digits2_pos q) - Z.of_nat j)%Z.
Proof.
  induction j as [|j IH]; intros q r s Hj.
  - exists q, r, s. split; [reflexivity | lia].
  - destruct (IH q r s) as (q1 & r1 & s1 & H1 & Hd1); [lia|].
    rewrite Nat.iter_succ, H1.
    destruct (shr_1_positive q1 r1 s1) as (q2 & r2 & s2 & H2 & Hd2); [lia|].
    exists q2, r2, s2. split; [exact H2 | lia].
Qed.

(** Above the subnormal range, [shr_fexp] keeps a positive mantissa
    positive and the magnitude where it is. *)
Lemma shr_fexp_positive (m : positive) (e : Z) (l : location) :
  (emin prec emax + prec <= Zpos (digits2_pos m) + e)%Z ->
  exists m' r s e',
    shr_fexp prec emax (Zpos m) e l
    = ({| shr_m := Zpos m'; shr_r := r; shr_s := s |}, e') /\
    (Zpos (digits2_pos m') + e' = Zpos (digits2_pos m) + e)%Z.
Proof.
  intros H. unfold shr_fexp. cbn [Zdigits2].
  assert (Hf : fexp prec emax (Zpos (digits2_pos m) + e)
               = (Zpos (digits2_pos m) + e - prec)%Z)
    by (unfold fexp; lia).
  rewrite Hf.
  assert (Hrec : exists r0 s0, shr_record_of_loc (Zpos m) l
                 = {| shr_m := Zpos m; shr_r := r0; shr_s := s0 |})
    by (destruct l as [|[| |]]; eexists; eexists; reflexivity).
  destruct Hrec as (r0 & s0 & ->).
  destruct (Zpos (digits2_pos m) + e - prec - e)%Z as [|k|k] eqn:Hk;
    cbn [shr].
  - exists m, r0, s0, e. split; [reflexivity | lia].
  - rewrite iter_pos_nat.
    destruct (shr_iter_positive (Pos.to_nat k) m r0 s0)
      as (q & r & s & Hq & Hd).
    { rewrite positive_nat_Z. unfold prec in Hk. lia. }
    rewrite Hq. exists q, r, s, (e + Zpos k)%Z. split; [reflexivity|].
    rewrite positive_nat_Z in Hd. lia.
  - exists m, r0, s0, e. split; [reflexivity | lia].
Qed.

Lemma round_nearest_even_positive (q : positive) (l : location) :
  exists q2, round_nearest_even (Zpos q) l = Zpos q2 /\
             (Zpos (digits2_pos q) <= Zpos (digits2_pos q2))%Z.
Proof.
  pose proof (digits2_pos_succ q) as Hs.
  assert (H1 : (Zpos q + 1)%Z = Zpos (Pos.succ q)) by lia.
  destruct l as [|[| |]]; cbn [round_nearest_even].
  - exists q. split; [reflexivity | lia].
  - destruct (Z.even (Zpos q)).
    + exists q. split; [reflexivity | lia].
    + exists (Pos.succ q). split; [exact H1 | exact Hs].
  - exists q. split; [reflexivity | lia].
  - exists (Pos.succ q). split; [exact H1 | exact Hs].
Qed.

Lemma binary_round_aux_positive (m : positive) (e : Z) (l : location) :
  (emin prec emax + prec <= Zpos (digits2_pos m) + e)%Z ->
  sf_positive (binary_round_aux prec emax false (Zpos m) e l) = true.
Proof.
  intros H. unfold binary_round_aux.
  destruct (shr_fexp_positive m e l H) as (m1 & r1 & s1 & e1 & -> & Hd1).
  cbn [shr_m].
  destruct (round_nearest_even_positive m1
              (loc_of_shr_record {| shr_m := Zpos m1; shr_r := r1; shr_s := s1 |}))
    as (q2 & -> & Hq2).
  destruct (shr_fexp_positive q2 e1 loc_Exact) as (m3 & r3 & s3 & e3 & -> & Hd3);
    [lia|].
  cbn [shr_m]. now destruct (e3 <=? emax - prec)%Z.
Qed.

Lemma binary_round_positive (p : positive) (e : Z) :
  (emin prec emax + prec <= Zpos (digits2_pos p) + e)%Z ->
  sf_positive (binary_round prec emax false p e) = true.
Proof.
  intros H. unfold binary_round, shl_align.
  assert (Hf : fexp prec emax (Zpos (digits2_pos p) + e)
               = (Zpos (digits2_pos p) + e - prec)%Z)
    by (unfold fexp; lia).
  rewrite Hf.
  destruct (Zpos (digits2_pos p) + e - prec - e)%Z as [|k|k] eqn:Hk.
  - now apply binary_round_aux_positive.
  - now apply binary_round_aux_positive.
  - apply binary_round_aux_positive. rewrite digits2_pos_iter_xO. lia.
Qed.

Lemma of_size_positive (n : nat) :
  0 < n -> (Z.of_nat n < 2 ^ 63)%Z ->
  positive64 (d_of_size (Arith := ieee_Arith) n) = true.
Proof.
  intros Hn Hlt. unfold positive64. cbn [d_of_size ieee_Arith].
  rewrite of_uint63_spec, Uint63.of_Z_spec.
  rewrite Z.mod_small by (change Uint63.wB with (2 ^ 63)%Z; lia).
  destruct (Z.of_nat n) as [|p|p] eqn:Hp; try lia.
  cbn [binary_normalize]. apply binary_round_positive.
  unfold emin, prec, emax. lia.
Qed.


(** ** Distances of coinciding finite pixels *)

Lemma vec2_distance_zero (p : Vector2d float) :
  finite_vector2 p = true -> vec2_norm (vec2_sub p p) = zero.
Proof.
  unfold finite_vector2. intros H. apply andb_true_iff in H as [H0 H1].
  unfold vec2_norm, vec2_sub. cbn.
  now rewrite !binary64_sub_diag by assumption.
Qed.

Lemma pixel_distance_zero (a : Point2f float32) :
  finite_pixel a = true -> pixel_distance a a = zero.
Proof.
  unfold finite_pixel. intros H. apply andb_true_iff in H as [H0 H1].
  unfold pixel_distance, cv_norm, point2f_sub. cbn.
  now rewrite !binary64_sub_diag by assumption.
Qed.

Section Distances.
Context {Model : Type} {LIB : Library float float32} {CM : CameraModel float Model}.

Lemma view_distances_unsigned (cam : Camera Model) (v : View float float32) :
  Forall (fun d => unsigned64 d = true) (view_distances cam v).
Proof.
  unfold view_distances. apply Forall_map, Forall_forall.
  intros oe _. apply cv_norm_unsigned.
Qed.

Lemma total_sum_unsigned (cam : Camera Model) (vs : list (View float float32)) :
  unsigned64 (total_sum cam vs) = true.
Proof.
  unfold total_sum. apply sum_from_zero_unsigned, Forall_map, Forall_forall.
  intros v _. apply sum_from_zero_unsigned, view_distances_unsigned.
Qed.

Lemma mean_unsigned (cam : Camera Model) (vs : list (View float float32)) :
  unsigned64 (d_div (total_sum cam vs) (d_of_size (total_count vs))) = true.
Proof.
  cbn [d_div d_of_size ieee_Arith].
  apply div_unsigned; [apply total_sum_unsigned | apply of_uint63_unsigned].
Qed.

Lemma view_sum_zero (cam : Camera Model) (v : View float float32) :
  view_coincides cam v ->
  forallb finite_pixel (view_imagePoints v) = true ->
  view_sum cam v = zero.
Proof.
  intros Hc Hf. unfold view_sum, sum_from_zero.
  cbn [d_add d_zero ieee_Arith]. apply fold_add_zero.
  unfold view_distances. apply Forall_map.
  unfold view_coincides in Hc. rewrite Forall_forall in Hc.
  apply Forall_forall. intros [a b] Hin. cbn [fst snd].
  pose proof (Hc (a, b) Hin) as Hab. cbn [fst snd] in Hab. subst b.
  apply pixel_distance_zero.
  rewrite forallb_forall in Hf. apply Hf.
  eapply in_combine_l. exact Hin.
Qed.

Lemma total_sum_zero (cam : Camera Model) (vs : list (View float float32)) :
  Forall (view_coincides cam) vs ->
  Forall (fun v => forallb finite_pixel (view_imagePoints v) = true) vs ->
  total_sum cam vs = zero.
Proof.
  intros Hc Hf. unfold total_sum, sum_from_zero.
  cbn [d_add d_zero ieee_Arith]. apply fold_add_zero.
  apply Forall_map. rewrite Forall_forall in *.
  intros v Hv. apply view_sum_zero; [now apply Hc | now apply Hf].
Qed.

Lemma mean_zero (cam : Camera Model) (vs : list (View float float32)) :
  0 < total_count vs -> (Z.of_nat (total_count vs) < 2 ^ 63)%Z ->
  Forall (view_coincides cam) vs ->
  Forall (fun v => forallb finite_pixel (view_imagePoints v) = true) vs ->
  d_div (total_sum cam vs) (d_of_size (total_count vs)) = zero.
Proof.
  intros Hn Hlt Hc Hf. rewrite total_sum_zero by assumption.
  cbn [d_div ieee_Arith]. apply div_zero_positive.
  now apply of_size_positive.
Qed.

Lemma zip_views_imagePoints (objectPoints : list (list (Point3f float32))) :
  forall (imagePoints : list (list (Point2f float32)))
         (rvecs tvecs : list (Mat float)) (v : View float float32),
  In v (zip_views objectPoints imagePoints rvecs tvecs) ->
  In (view_imagePoints v) imagePoints.
Proof.
  induction objectPoints as [|o os IH];
    intros [|i is'] [|r rs] [|t ts] v Hv; simpl in Hv; try contradiction.
  destruct Hv as [<-|Hv]; [now left | right; eapply IH; exact Hv].
Qed.

End Distances.

End Binary64Facts.


(** ** The identity pose and the distances in binary64 *)

Module Binary64.
Import PrimFloat Sample Edge.
Import Binary64Facts.
#[local] Existing Instance identity_Library.
#[local] Existing Instance UnitPinhole_model.

(** C7 fails as stated.  The point [(1, 1, -0.0)] under the identity
    rotation and the zero translation: [I * P + 0] has [+0.0] for third
    coordinate, and the unit pinhole, which divides by it, gives the
    pixel at plus infinity where it gives the pixel at minus infinity for
    the point itself. *)
Lemma projectPoints_identity_pose_negative_zero :
  Rodrigues no_motion = eye33 /\
  translation_of no_motion = zero3 /\
  value_of (projectPoints pinhole_camera [behind_zero] no_motion no_motion [])
  = Ok [pixel infinity infinity] /\
  to_Point2f (spaceToPlane (m_model pinhole_camera) (to_Vector3d behind_zero))
  = pixel neg_infinity neg_infinity /\
  PrimFloat.eqb infinity neg_infinity = false.
Proof. vm_compute. repeat split. Qed.

(** C7, as amended: with the identity rotation ([cv::Rodrigues] gives
    the 3x3 identity for [rvec]) and the zero translation, [projectPoints]
    gives in binary64, for every object point with finite coordinates,
    the pixel that [spaceToPlane] gives for the point with [0.0] added to
    each coordinate, as a [cv::Point2f]; adding [0.0] changes a finite
    coordinate only when it is [-0.0], so for points without such a
    coordinate this is the pixel [spaceToPlane] gives for the point
    itself.  Finite they must be: the point [(inf, 1, 1)] gets the pixel
    [(NaN, NaN)] where the unit pinhole gives [(inf, 1)] for the point
    itself.  In exact arithmetic the pixel is that of the point itself
    for every sequence of points. *)
Theorem projectPoints_identity_pose :
  (forall (Model : Type) (LIB : Library float float32)
          (CM : CameraModel float Model) (cam : Camera Model)
          (objectPoints : list (Point3f float32)) (rvec tvec : Mat float),
     Rodrigues rvec = eye33 ->
     translation_of tvec = zero3 ->
     forallb finite_point objectPoints = true ->
     value_of (projectPoints cam objectPoints rvec tvec [])
     = Ok (map (fun P => to_Point2f (spaceToPlane (m_model cam) (plus_zero P)))
               objectPoints) /\
     (forall P, finite_point P = true -> no_negative_zero P = true ->
                plus_zero P = to_Vector3d P) /\
     (forallb no_negative_zero objectPoints = true ->
      value_of (projectPoints cam objectPoints rvec tvec [])
      = Ok (map (fun P => to_Point2f (spaceToPlane (m_model cam) (to_Vector3d P)))
                objectPoints))) /\
  (finite_point far_away = false /\
   value_of (projectPoints pinhole_camera [far_away] no_motion no_motion [])
   = Ok [pixel nan nan] /\
   to_Point2f (spaceToPlane (m_model pinhole_camera) (to_Vector3d far_away))
   = pixel infinity 1) /\
  (forall (Model : Type) (LIB : Library R R) (CM : CameraModel R Model)
          (cam : Camera Model) (objectPoints : list (Point3f R))
          (rvec tvec : Mat R),
     Rodrigues rvec = eye33 ->
     translation_of tvec = zero3 ->
     exists out : list (Point2f R),
       value_of (projectPoints cam objectPoints rvec tvec []) = Ok out /\
       length out = length objectPoints /\
       forall i P, nth_error objectPoints i = Some P ->
         nth_error out i
         = Some (to_Point2f (spaceToPlane (m_model cam) (to_Vector3d P)))).
Proof.
  split; [|split].
  - intros Model LIB CM cam objectPoints rvec tvec HR Ht Hfin.
    split; [|split].
    + now apply projectPoints_identity_pose_binary64.
    + intros P. apply plus_zero_fixed.
    + intros Hnz.
      rewrite (projectPoints_identity_pose_binary64 cam objectPoints rvec tvec)
        by assumption.
      f_equal. now apply plus_zero_map.
  - vm_compute. repeat split.
  - intros Model LIB CM cam objectPoints rvec tvec HR Ht.
    eexists. split; [|split].
    + apply projectPoints_identity_pose_generic; try assumption.
      apply Forall_forall. intros P _. apply real_fixed_by_identity.
    + apply length_map.
    + intros i P HP. now rewrite nth_error_map, HP.
Qed.

(** The identity pose on the four points of the board. *)
Lemma projectPoints_identity_pose_witness :
  value_of (projectPoints pinhole_camera board no_motion no_motion [])
  = Ok (map (fun P => to_Point2f (spaceToPlane (m_model pinhole_camera)
                                                (to_Vector3d P))) board).
Proof.
  apply (proj1 projectPoints_identity_pose UnitPinhole identity_Library
           UnitPinhole_model pinhole_camera board no_motion no_motion
           eq_refl eq_refl eq_refl).
  reflexivity.
Defined.

(** C6, as amended: [reprojectionDist] is the Euclidean norm of the
    difference of the two projected pixels, [sqrt (dx * dx + dy * dy)].
    In binary64 it, the single-point [reprojectionError] and the
    multi-view [reprojectionError], on the sizes on which it returns, are
    each [>= 0] or NaN, and they are 0 when the pixels coincide and are
    finite (for the multi-view error: when every observation is finite
    and is the projected point, and there are points, fewer than 2^63).
    They are not 0 only then,
    and not always [>= 0]: without a view the multi-view error is
    [0.0 / 0], NaN; coinciding pixels at infinity have distance NaN, a
    pixel at infinity and a finite one have distance plus infinity; and
    the pixels [(2^-600, 0)] and [(0, 0)] have distance 0, the square
    underflows.  In exact arithmetic the three are not negative and are 0
    exactly when the pixels coincide, the multi-view error for aligned
    views with at least one point. *)
Theorem reprojection_distances_nonnegative_or_nan :
  (forall (D F Model : Type) (AR : Arith D F) (LIB : Library D F)
          (CM : CameraModel D Model) (cam : Camera Model) (P1 P2 : Vector3d D),
     let p1 := spaceToPlane (m_model cam) P1 in
     let p2 := spaceToPlane (m_model cam) P2 in
     value_of (reprojectionDist cam P1 P2) = Ok (vec2_norm (vec2_sub p1 p2)) /\
     vec2_norm (vec2_sub p1 p2)
       = d_sqrt (d_add (d_mul (d_sub (e0 p1) (e0 p2)) (d_sub (e0 p1) (e0 p2)))
                       (d_mul (d_sub (e1 p1) (e1 p2)) (d_sub (e1 p1) (e1 p2)))) /\
     calls_of (reprojectionDist cam P1 P2)
       = [call_spaceToPlane P1; call_spaceToPlane P2]) /\
  (forall (Model : Type) (LIB : Library float float32)
          (CM : CameraModel float Model) (cam : Camera Model)
          (P1 P2 : Vector3d float),
     exists d : float,
       value_of (reprojectionDist cam P1 P2) = Ok d /\
       nonneg_or_nan d = true /\
       (spaceToPlane (m_model cam) P1 = spaceToPlane (m_model cam) P2 ->
        finite_vector2 (spaceToPlane (m_model cam) P1) = true ->
        d = zero)) /\
  (forall (Model : Type) (LIB : Library float float32)
          (CM : CameraModel float Model) (cam : Camera Model)
          (P : Vector3d float) (camera_q : Quaterniond float)
          (camera_t : Vector3d float) (observed_p : Vector2d float),
     exists d : float,
       value_of (reprojectionError_q cam P camera_q camera_t observed_p) = Ok d /\
       nonneg_or_nan d = true /\
       (spaceToPlane (m_model cam)
          (vec3_add (mat3_mul_vec (toRotationMatrix camera_q) P) camera_t)
        = observed_p ->
        finite_vector2 observed_p = true ->
        d = zero)) /\
  (forall (Model : Type) (LIB : Library float float32)
          (CM : CameraModel float Model) (cam : Camera Model)
          (objectPoints : list (list (Point3f float32)))
          (imagePoints : list (list (Point2f float32)))
          (rvecs tvecs : list (Mat float)) (computePerViewErrors : bool),
     in_range objectPoints imagePoints rvecs tvecs ->
     exists (d : float) (errors : option (Mat float)),
       value_of (reprojectionError cam objectPoints imagePoints rvecs tvecs
                   computePerViewErrors) = Ok (d, errors) /\
       nonneg_or_nan d = true /\
       (0 < total_count (zip_views objectPoints imagePoints rvecs tvecs) ->
        (Z.of_nat (total_count (zip_views objectPoints imagePoints rvecs tvecs))
         < 2 ^ 63)%Z ->
        Forall (view_coincides cam)
               (zip_views objectPoints imagePoints rvecs tvecs) ->
        Forall (fun i => forallb finite_pixel i = true) imagePoints ->
        d = zero)) /\
  (value_of (reprojectionError pinhole_camera [] [] [] [] false)
   = Ok (nan, None) /\
   nonneg_or_nan nan = true /\ PrimFloat.leb 0 nan = false) /\
  (spaceToPlane unit_pinhole in_plane = mkVector2d infinity infinity /\
   value_of (reprojectionDist pinhole_camera in_plane in_plane) = Ok nan /\
   value_of (reprojectionDist pinhole_camera in_plane ahead) = Ok infinity) /\
  (spaceToPlane unit_pinhole barely_off_axis = mkVector2d 0x1p-600%float 0%float /\
   spaceToPlane unit_pinhole on_the_axis = mkVector2d 0%float 0%float /\
   PrimFloat.eqb 0x1p-600 0 = false /\
   value_of (reprojectionDist pinhole_camera barely_off_axis on_the_axis)
   = Ok 0%float) /\
  (forall (Model : Type) (LIB : Library R R) (CM : CameraModel R Model)
          (cam : Camera Model) (P1 P2 : Vector3d R),
     exists d : R,
       value_of (reprojectionDist cam P1 P2) = Ok d /\
       (0 <= d)%R /\
       (d = 0%R <-> spaceToPlane (m_model cam) P1 = spaceToPlane (m_model cam) P2)) /\
  (forall (Model : Type) (LIB : Library R R) (CM : CameraModel R Model)
          (cam : Camera Model) (P : Vector3d R) (camera_q : Quaterniond R)
          (camera_t : Vector3d R) (observed_p : Vector2d R),
     exists d : R,
       value_of (reprojectionError_q cam P camera_q camera_t observed_p) = Ok d /\
       (0 <= d)%R /\
       (d = 0%R <->
        spaceToPlane (m_model cam)
          (vec3_add (mat3_mul_vec (toRotationMatrix camera_q) P) camera_t)
        = observed_p)) /\
  (forall (Model : Type) (LIB : Library R R) (CM : CameraModel R Model)
          (cam : Camera Model) (objectPoints : list (list (Point3f R)))
          (imagePoints : list (list (Point2f R))) (rvecs tvecs : list (Mat R))
          (computePerViewErrors : bool),
     length imagePoints = length objectPoints ->
     length rvecs = length objectPoints ->
     length tvecs = length objectPoints ->
     Forall2 (fun o i => length o = length i) objectPoints imagePoints ->
     0 < total_count (zip_views objectPoints imagePoints rvecs tvecs) ->
     exists (d : R) (errors : option (Mat R)),
       value_of (reprojectionError cam objectPoints imagePoints rvecs tvecs
                   computePerViewErrors) = Ok (d, errors) /\
       (0 <= d)%R /\
       (d = 0%R <->
        Forall (view_coincides cam)
               (zip_views objectPoints imagePoints rvecs tvecs))).
Proof.
  split; [|split; [|split; [|split; [|split; [|split; [|split;
    [|split; [|split]]]]]]]].
  - intros. cbv zeta. repeat split.
  - intros Model LIB CM cam P1 P2. eexists. split; [reflexivity|]. split.
    + apply unsigned_nonneg_or_nan, vec2_norm_unsigned.
    + intros <- Hfin. now apply vec2_distance_zero.
  - intros Model LIB CM cam P camera_q camera_t observed_p.
    eexists. split; [reflexivity|]. split.
    + apply unsigned_nonneg_or_nan, vec2_norm_unsigned.
    + intros -> Hfin. now apply vec2_distance_zero.
  - intros Model LIB CM cam objectPoints imagePoints rvecs tvecs b Hin.
    apply (sized_spec objectPoints) in Hin.
    eexists. eexists. split; [|split].
    + unfold value_of. rewrite reprojectionError_sized_run by exact Hin.
      reflexivity.
    + apply unsigned_nonneg_or_nan, mean_unsigned.
    + intros Hn Hlt Hc Hf. apply mean_zero; try assumption.
      rewrite Forall_forall in *. intros v Hv. apply Hf.
      eapply zip_views_imagePoints. exact Hv.
  - vm_compute. repeat split.
  - vm_compute. repeat split.
  - vm_compute. repeat split.
  - intros Model LIB CM cam P1 P2. eexists. split; [reflexivity|]. split.
    + apply real_vec2_norm_nonneg.
    + apply real_vec2_distance_zero_iff.
  - intros Model LIB CM cam P camera_q camera_t observed_p.
    eexists. split; [reflexivity|]. split.
    + apply real_vec2_norm_nonneg.
    + apply real_vec2_distance_zero_iff.
  - intros Model LIB CM cam objectPoints imagePoints rvecs tvecs b Hi Hr Ht Hs Hn.
    eexists. eexists. split.
    + now apply reprojectionError_aligned.
    + destruct (real_mean_nonneg
                  (total_sum cam (zip_views objectPoints imagePoints rvecs tvecs))
                  (total_count (zip_views objectPoints imagePoints rvecs tvecs))
                  (real_total_sum_nonneg cam _) Hn) as [Hge Hzero].
      split; [exact Hge|].
      etransitivity; [exact Hzero|]. apply real_total_sum_zero_iff.
Qed.

(** Three observations of the point on the axis at the pixel it projects to. *)
Lemma reprojection_distances_nonnegative_or_nan_witness :
  exists (d : float) (errors : option (Mat float)),
    value_of (reprojectionError pinhole_camera [repeat on_axis 3]
                [repeat (pixel 0 0) 3] [no_motion] [no_motion] false)
    = Ok (d, errors) /\
    nonneg_or_nan d = true /\ d = 0%float.
Proof.
  destruct (proj1 (proj2 (proj2 (proj2 reprojection_distances_nonnegative_or_nan)))
              UnitPinhole identity_Library UnitPinhole_model pinhole_camera
              [repeat on_axis 3] [repeat (pixel 0 0) 3] [no_motion] [no_motion]
              false)
    as (d & errors & Hv & Hn & Hz).
  - apply sized_spec. reflexivity.
  - exists d, errors. split; [exact Hv|]. split; [exact Hn|].
    apply Hz.
    + cbn. lia.
    + cbn. lia.
    + repeat constructor.
    + repeat constructor.
Defined.

End Binary64.
